(** * ProjektDB: normalisation, comparison and the worksheet pass

    A shallow embedding of [utils.js] and of the request handlers of the
    server file, with the properties of the reconciliation pipeline proved
    over it.

    JavaScript strings are sequences of UTF-16 code units; they are modelled
    as [list N].  Numbers are IEEE-754 binary64 values; they are modelled
    with the Standard Library's [spec_float] at precision 53, so every
    arithmetic step rounds as the JavaScript engine does. *)

From Stdlib Require Import ZArith NArith Bool List Lia Sorted.
From Stdlib Require Import Strings.Ascii Strings.String.
From Stdlib Require Import Floats.SpecFloat Floats.PrimFloat Floats.FloatOps.
From stdpp Require Import base option list gmap strings.

Set Warnings "-inexact-float".

(** ** Strings *)

Abbreviation jsstring := (list N).

(** A string literal of the source, written with ASCII characters only. *)
Definition js (s : string) : jsstring :=
  map N_of_ascii (list_ascii_of_string s).

Module Text.

Local Open Scope N_scope.

Definition in_range (lo hi c : N) : bool := (lo <=? c) && (c <=? hi).

(** [\d], [[a-z]], the word characters behind [\b], and [\s] (the
    WhiteSpace and LineTerminator code units of ECMAScript, which are also
    what [trim] removes). *)
Definition is_digit (c : N) : bool := in_range 48 57 c.
Definition is_az (c : N) : bool := in_range 97 122 c.
Definition is_word (c : N) : bool :=
  in_range 48 57 c || in_range 65 90 c || in_range 97 122 c || (c =? 95).
Definition is_space (c : N) : bool :=
  in_range 9 13 c || (c =? 32) || (c =? 160) || (c =? 5760)
  || in_range 8192 8202 c || (c =? 8232) || (c =? 8233) || (c =? 8239)
  || (c =? 8287) || (c =? 12288) || (c =? 65279).

(** Case conversion on Latin-1 text, code unit by code unit.  The tables
    are those of Unicode for the Basic Latin and Latin-1 Supplement blocks
    (U+0000 to U+00FF); code units above U+00FF are left as they are, so
    outside Latin-1 these are not the conversions of the engine.  In
    Latin-1 the lower-case mapping is closed; the upper-case mapping sends
    U+00DF to the two letters SS, U+00B5 to U+039C and U+00FF to U+0178.

    The functions of [utils.js] and of the server take the conversions of
    the engine as parameters.  The properties that hold for every text are
    proved for every such pair of conversions; the evaluations of literals
    and the properties of Latin-1 text are stated with these tables. *)
Definition lower_unit (c : N) : N :=
  if in_range 65 90 c then c + 32
  else if in_range 192 222 c && negb (c =? 215) then c + 32
  else c.

Definition upper_unit (c : N) : jsstring :=
  if in_range 97 122 c then [c - 32]
  else if in_range 224 254 c && negb (c =? 247) then [c - 32]
  else if c =? 223 then [83; 83]
  else if c =? 181 then [924]
  else if c =? 255 then [376]
  else [c].

Definition toLowerCase (s : jsstring) : jsstring := map lower_unit s.
Definition toUpperCase (s : jsstring) : jsstring := flat_map upper_unit s.

(** The range on which the case tables above are those of Unicode. *)
Definition latin1 (s : jsstring) : Prop := Forall (fun c => c < 256) s.

Fixpoint drop_while (p : N -> bool) (s : jsstring) : jsstring :=
  match s with
  | c :: s' => if p c then drop_while p s' else s
  | [] => []
  end.

Definition trim (s : jsstring) : jsstring :=
  rev (drop_while is_space (rev (drop_while is_space s))).

Fixpoint startsWith (s w : jsstring) {struct w} : bool :=
  match w, s with
  | [], _ => true
  | a :: w', c :: s' => (c =? a) && startsWith s' w'
  | _ :: _, [] => false
  end.

Definition endsWith (s w : jsstring) : bool := startsWith (rev s) (rev w).

(** [s.replace(pat, rep)] with a string pattern: the first occurrence only. *)
Fixpoint replace_first (pat rep s : jsstring) : jsstring :=
  if startsWith s pat then rep ++ drop (length pat) s
  else match s with
       | [] => []
       | c :: s' => c :: replace_first pat rep s'
       end.

(** *** Regular expressions

    The fragment of the pattern language the source uses: character
    classes, concatenation, alternation, the greedy [+] and [?], and the
    word boundary [\b]. *)
Inductive regex :=
| Eps
| Class (cls : N -> bool)
| Cat (r1 r2 : regex)
| Alt (r1 r2 : regex)
| Plus (r : regex)
| Opt (r : regex)
| WordB.

Definition Chr (c : N) : regex := Class (N.eqb c).
Definition lit (w : jsstring) : regex := foldr (fun c r => Cat (Chr c) r) Eps w.
Definition Not (cls : N -> bool) : regex := Class (fun c => negb (cls c)).

Definition word_opt (c : option N) : bool :=
  match c with Some x => is_word x | None => false end.

(** The backtracking matcher.  [prev] is the code unit before the current
    position (for [\b]), [s] the rest of the input, [k] the continuation
    that decides whether the match may end here; alternatives are tried in
    the order of the pattern, longest repetition first. *)
Fixpoint mt {A} (r : regex) (prev : option N) (s : jsstring)
    (k : option N -> jsstring -> option A) : option A :=
  match r with
  | Eps => k prev s
  | Class cls =>
      match s with
      | c :: s' => if cls c then k (Some c) s' else None
      | [] => None
      end
  | Cat r1 r2 => mt r1 prev s (fun p' s' => mt r2 p' s' k)
  | Alt r1 r2 =>
      match mt r1 prev s k with
      | Some a => Some a
      | None => mt r2 prev s k
      end
  | Plus r1 =>
      mt r1 prev s
        ((fix more (fuel : nat) (p : option N) (t : jsstring) : option A :=
            match fuel with
            | O => k p t
            | S fuel' =>
                match mt r1 p t (fun p' t' =>
                        if (length t' <? length t)%nat then more fuel' p' t'
                        else None) with
                | Some a => Some a
                | None => k p t
                end
            end) (length s))
  | Opt r1 =>
      match mt r1 prev s k with
      | Some a => Some a
      | None => k prev s
      end
  | WordB =>
      if xorb (word_opt prev) (word_opt (head s)) then k prev s else None
  end.

(** One match attempt at the current position: the matched text, the code
    unit before the end of the match, and the rest. *)
Definition match_here (r : regex) (prev : option N) (s : jsstring)
  : option (jsstring * option N * jsstring) :=
  match mt r prev s (fun p' s' => Some (p', s')) with
  | Some (p', s') => Some (take (length s - length s') s, p', s')
  | None => None
  end.

(** The leftmost match: the text before it, the match, and what follows. *)
Fixpoint exec (r : regex) (prev : option N) (s : jsstring)
  : option (jsstring * jsstring * option N * jsstring) :=
  match match_here r prev s with
  | Some (m, p', s') => Some ([], m, p', s')
  | None =>
      match s with
      | [] => None
      | c :: s' =>
          match exec r (Some c) s' with
          | Some (pre, m, p', rest) => Some (c :: pre, m, p', rest)
          | None => None
          end
      end
  end.

(** [re.test(s)] *)
Definition test (r : regex) (s : jsstring) : bool :=
  match exec r None s with Some _ => true | None => false end.

(** [s.match(re)] without the global flag: the text of the first match. *)
Definition match1 (r : regex) (s : jsstring) : option jsstring :=
  match exec r None s with
  | Some (_, m, _, _) => Some m
  | None => None
  end.

(** [s.match(re)] with the global flag: all matches, left to right.  An
    empty match moves the scan one code unit on. *)
Fixpoint match_all_from (fuel : nat) (r : regex) (prev : option N)
    (s : jsstring) : list jsstring :=
  match fuel with
  | O => []
  | S fuel' =>
      match exec r prev s with
      | None => []
      | Some (_, m, p', rest) =>
          match m, rest with
          | [], [] => [[]]
          | [], c :: rest' => [] :: match_all_from fuel' r (Some c) rest'
          | _ :: _, _ => m :: match_all_from fuel' r p' rest
          end
      end
  end.

Definition match_all (r : regex) (s : jsstring) : list jsstring :=
  match_all_from (S (length s)) r None s.

(** [s.replace(re, rep)] with the global flag. *)
Fixpoint replace_all_from (fuel : nat) (r : regex) (rep : jsstring)
    (prev : option N) (s : jsstring) : jsstring :=
  match fuel with
  | O => s
  | S fuel' =>
      match exec r prev s with
      | None => s
      | Some (pre, m, p', rest) =>
          match m, rest with
          | [], [] => pre ++ rep
          | [], c :: rest' =>
              pre ++ rep ++ c :: replace_all_from fuel' r rep (Some c) rest'
          | _ :: _, _ => pre ++ rep ++ replace_all_from fuel' r rep p' rest
          end
      end
  end.

Definition replace_all (r : regex) (rep s : jsstring) : jsstring :=
  replace_all_from (S (length s)) r rep None s.

End Text.


(** ** Numbers *)

Module Num.

Local Open Scope Z_scope.

Definition prec : Z := 53.
Definition emax : Z := 1024.

Abbreviation num := spec_float.

Definition of_Z (z : Z) : num := binary_normalize prec emax z 0 false.

Definition add : num -> num -> num := SFadd prec emax.
Definition sub : num -> num -> num := SFsub prec emax.
Definition mul : num -> num -> num := SFmul prec emax.
Definition div : num -> num -> num := SFdiv prec emax.
Definition abs : num -> num := SFabs.
Definition ltb : num -> num -> bool := SFltb.
Definition leb : num -> num -> bool := SFleb.

(** The double nearest to [m / 10^k] (ties to even), with the sign [neg]:
    the value of a decimal literal with digits [m], the last [k] of them
    after the point.  The quotient is taken with more than 60 binary digits
    and a sticky bit for the remainder, then rounded once. *)
Definition nearest_decimal (neg : bool) (m : Z) (k : nat) : num :=
  if m <=? 0 then S754_zero neg
  else
    let den := 10 ^ Z.of_nat k in
    let s := 64 + Z.log2 den - Z.log2 m in
    let n' := if 0 <=? s then m * 2 ^ s else m in
    let d' := if 0 <=? s then den else den * 2 ^ (- s) in
    let q := n' / d' in
    let sticky := if n' mod d' =? 0 then 0 else 1 in
    let r := binary_normalize prec emax (2 * q + sticky) (- s - 1) false in
    if neg then SFopp r else r.

Fixpoint digits_value (acc : Z) (ds : jsstring) : Z :=
  match ds with
  | [] => acc
  | d :: ds' => digits_value (10 * acc + (Z.of_N d - 48)) ds'
  end.

Fixpoint span_digits (s : jsstring) : jsstring * jsstring :=
  match s with
  | c :: s' =>
      if Text.is_digit c then
        let '(ds, rest) := span_digits s' in (c :: ds, rest)
      else ([], s)
  | [] => ([], [])
  end.

(** [parseFloat] on a decimal literal: optional sign, digits, optional
    fraction; what follows is ignored, and no digit at all gives NaN.  (The
    source only passes texts matched by its number pattern, so exponents and
    the word Infinity do not arise.) *)
Definition parseFloat (s : jsstring) : num :=
  let s0 := Text.drop_while Text.is_space s in
  let '(neg, s1) :=
    match s0 with
    | 45%N :: t => (true, t)
    | 43%N :: t => (false, t)
    | _ => (false, s0)
    end in
  let '(ip, s2) := span_digits s1 in
  let fp := match s2 with
            | 46%N :: t => fst (span_digits t)
            | _ => []
            end in
  match ip ++ fp with
  | [] => S754_nan
  | ds => nearest_decimal neg (digits_value 0 ds) (length fp)
  end.

(** [Math.round]: the nearest integer, a tie going towards plus infinity;
    zeros, infinities and NaN are returned as they are, and a negative
    argument that rounds to zero gives minus zero. *)
Definition round (x : num) : num :=
  match x with
  | S754_finite sg m e =>
      if 0 <=? e then x
      else
        let d := 2 ^ (- e) in
        let n := if sg then (d - 2 * Zpos m) / (2 * d)
                 else (2 * Zpos m + d) / (2 * d) in
        if n =? 0 then S754_zero sg else of_Z n
  | _ => x
  end.

(** A number as a condition: zero and NaN are falsy. *)
Definition truthy (x : num) : bool :=
  match x with
  | S754_zero _ | S754_nan => false
  | _ => true
  end.

End Num.


(** ** Values *)

Module Js.

Import Num.

(** The values the functions below receive: cell values, record fields and
    request fields. *)
Inductive value :=
| VUndefined
| VNull
| VBool (b : bool)
| VNum (n : num)
| VStr (s : jsstring).

(** A value as a condition. *)
Definition truthy (v : value) : bool :=
  match v with
  | VUndefined | VNull => false
  | VBool b => b
  | VNum n => Num.truthy n
  | VStr [] => false
  | VStr (_ :: _) => true
  end.

(** [v == null] *)
Definition nullish (v : value) : bool :=
  match v with
  | VUndefined | VNull => true
  | _ => false
  end.

(** [a || b] *)
Definition or_else (a b : value) : value := if truthy a then a else b.

Section Conversions.

(** [Number.prototype.toString], which is not modelled: the digits a
    number prints with are the engine's. *)
Variable num_to_string : num -> jsstring.

(** [String(v)], also the conversion inside a template literal. *)
Definition to_string (v : value) : jsstring :=
  match v with
  | VUndefined => js "undefined"
  | VNull => js "null"
  | VBool true => js "true"
  | VBool false => js "false"
  | VNum n => num_to_string n
  | VStr s => s
  end.

End Conversions.

(** [x != null] for a value that is a number or [null]. *)
Definition is_Some_b {A} (x : option A) : bool :=
  match x with Some _ => true | None => false end.

End Js.

(** ** utils.js *)

Module Utils.

Import Text Num Js.

(** [/\s+/] *)
Definition re_spaces : regex := Plus (Class is_space).
(** [/-?\d+(?:\.\d+)?/] *)
Definition re_number : regex :=
  Cat (Opt (Chr 45))
      (Cat (Plus (Class is_digit)) (Opt (Cat (Chr 46) (Plus (Class is_digit))))).
(** [/mg/], [/[^k]g/], [/kg/], [/\bt\b/] *)
Definition re_mg : regex := lit (js "mg").
Definition re_g : regex := Cat (Not (N.eqb 107)) (Chr 103).
Definition re_kg : regex := lit (js "kg").
Definition re_t : regex := Cat WordB (Cat (Chr 116) WordB).
(** [/[×x]/], [/[^a-z]cm\b/], [/[^a-z]m\b/] *)
Definition re_times : regex := Class (fun c => (c =? 215)%N || (c =? 120)%N).
Definition re_cm : regex := Cat (Not is_az) (Cat (lit (js "cm")) WordB).
Definition re_m : regex := Cat (Not is_az) (Cat (Chr 109) WordB).
(** [/[\s\-\/_]+/] *)
Definition is_separator (c : N) : bool :=
  is_space c || (c =? 45)%N || (c =? 47)%N || (c =? 95)%N.
Definition re_separators : regex := Plus (Class is_separator).
(** [/nicht/], [/schwei|schweiß|schweiss/], [/guss/], [/klebe/],
    [/schmiede/], [/relev/] *)
Definition re_nicht : regex := lit (js "nicht").
Definition re_schweiss : regex :=
  Alt (lit (js "schwei"))
      (Alt (lit (js "schwei" ++ [223%N])) (lit (js "schweiss"))).
Definition re_guss : regex := lit (js "guss").
Definition re_klebe : regex := lit (js "klebe").
Definition re_schmiede : regex := lit (js "schmiede").
Definition re_relev : regex := lit (js "relev").

(** The literals [1e6] and [1e-9]. *)
Definition c_1e6 : num := of_Z 1000000.
Definition c_1e_9 : num := nearest_decimal false 1 9.

Record LBH := { L : option num; B : option num; H : option num }.

Section WithBuiltins.

(** The case conversions of the engine ([String.prototype.toLowerCase] and
    [toUpperCase]), whatever they do on the whole of Unicode. *)
Variable toLowerCase toUpperCase : jsstring -> jsstring.
Variable num_to_string : num -> jsstring.

Definition cleanNumberString (s : value) : option jsstring :=
  if nullish s then None
  else Some (replace_first (js ",") (js ".")
               (replace_all re_spaces [] (to_string num_to_string s))).

Definition toNumber (val : value) : option num :=
  if nullish val then None
  else match val with
       | VStr [] => None
       | _ =>
           match cleanNumberString val with
           | None => None
           | Some s =>
               match match1 re_number s with
               | None => None
               | Some m => Some (parseFloat m)
               end
           end
       end.

Definition normalizeWeightToKg (val : value) : option num :=
  if nullish val then None
  else match val with
       | VStr [] => None
       | _ =>
           match cleanNumberString val with
           | None => None
           | Some s0 =>
               let s := toLowerCase s0 in
               match match1 re_number s with
               | None => None
               | Some m =>
                   let n := parseFloat m in
                   if test re_mg s then Some (div n c_1e6)
                   else if test re_g s && negb (test re_kg s)
                        then Some (div n (of_Z 1000))
                   else if test re_kg s then Some n
                   else if test re_t s then Some (mul n (of_Z 1000))
                   else Some n
               end
           end
       end.

Definition component (nums : list num) (i : nat) (scale : num) : option num :=
  match nums !! i with
  | Some x => Some (round (mul x scale))
  | None => None
  end.

Definition parseDimensionsToLBH (text : value) : LBH :=
  if negb (truthy text) then {| L := None; B := None; H := None |}
  else
    let raw := trim (to_string num_to_string text) in
    let s := replace_all re_spaces []
               (replace_first (js ",") (js ".")
                  (replace_all re_times (js "x") (toLowerCase raw))) in
    let scale1 := if test re_cm s || endsWith s (js "cm")
                  then of_Z 10 else of_Z 1 in
    let scale := if test re_m s || endsWith s (js "m")
                 then of_Z 1000 else scale1 in
    let nums := map parseFloat (match_all re_number s) in
    {| L := component nums 0 scale;
       B := component nums 1 scale;
       H := component nums 2 scale |}.

Definition normPartNo (s : value) : jsstring :=
  if negb (truthy s) then []
  else replace_all re_separators []
         (toUpperCase (to_string num_to_string s)).

Definition mapMaterialClassificationToExcel (text : value) : jsstring :=
  if negb (truthy text) then []
  else
    let s := toLowerCase (to_string num_to_string text) in
    let hasNicht := test re_nicht s in
    let hasSchweiss := test re_schweiss s in
    let hasGuss := test re_guss s in
    let hasKlebe := test re_klebe s in
    let hasSchmiede := test re_schmiede s in
    let hasRelevant := test re_relev s in
    if hasNicht && (hasSchweiss || hasGuss || hasKlebe || hasSchmiede)
       && hasRelevant
    then js "OHNE/N/N/N/N"
    else [].

(** [a2vUrl]: the address of the product page, the number trimmed. *)
Definition a2vUrl (a2v : value) : jsstring :=
  let id := trim (to_string num_to_string (or_else a2v (VStr []))) in
  js "https://www.mymobase.com/de/p/" ++ id.

End WithBuiltins.

(** The operands and the tolerance are numbers or absent ([None]). *)
Definition withinToleranceKG (exKg wbKg tolPct : option num) : bool :=
  match exKg, wbKg with
  | Some ex, Some wb =>
      let diff := abs (sub ex wb) in
      let strict :=
        match tolPct with
        | None => true
        | Some t => negb (Num.truthy t) || leb t (of_Z 0)
        end in
      if strict then ltb diff c_1e_9
      else match tolPct with
           | Some t => leb diff (mul (abs ex) (div t (of_Z 100)))
           | None => false
           end
  | _, _ => false
  end.

End Utils.


(** ** The server: comparators, the single-product route, the worksheet pass *)

Module Server.

Import Text Num Js Utils.

Inductive status := GREEN | RED | ORANGE.

Record verdict := { v_status : status; v_comment : jsstring }.

(** The fill colours of [statusCellFill] (solid pattern, ARGB foreground). *)
Definition statusCellFill (st : status) : string :=
  match st with
  | GREEN => "FFD5F4E6"
  | RED => "FFFDEAEA"
  | ORANGE => "FFFFF3CD"
  end.

Definition HEADER_ROW : nat := 3.
Definition FIRST_DATA_ROW : nat := 4.

(** [Math.max] on two numbers. *)
Definition max (a b : num) : num :=
  match a, b with
  | S754_nan, _ | _, S754_nan => S754_nan
  | _, _ => if ltb a b then b else a
  end.

(** *** The worksheet of the spreadsheet library

    A worksheet is its rows, row [r] (counted from 1) at position [r - 1];
    a row maps column letters to cells; a cell that was never written has
    the value [null]. *)
Record cell := { c_value : value; c_fill : option string }.

Definition blank_cell : cell := {| c_value := VNull; c_fill := None |}.

Abbreviation row := (gmap string cell).
Abbreviation worksheet := (list (gmap string cell)).

Definition lastRow (ws : worksheet) : nat := length ws.

Definition get_cell (ws : worksheet) (c : string) (r : nat) : cell :=
  match ws !! (r - 1)%nat with
  | Some rw => default blank_cell (rw !! c)
  | None => blank_cell
  end.

(** [ws.getCell(c + r).value] *)
Definition cell_value (ws : worksheet) (c : string) (r : nat) : value :=
  c_value (get_cell ws c r).

(** Rows up to [r] exist once a cell of row [r] is written. *)
Definition ensure_rows (ws : worksheet) (r : nat) : worksheet :=
  ws ++ replicate (r - length ws) (∅ : gmap string cell).

Definition update_cell (f : cell -> cell) (ws : worksheet) (c : string)
    (r : nat) : worksheet :=
  alter (fun rw : gmap string cell =>
           <[c := f (default blank_cell (rw !! c))]> rw)
        (r - 1)%nat (ensure_rows ws r).

(** [ws.getCell(c + r).value = v] and [ws.getCell(c + r).fill = f] *)
Definition set_value (ws : worksheet) (c : string) (r : nat) (v : value)
  : worksheet :=
  update_cell (fun cl => {| c_value := v; c_fill := c_fill cl |}) ws c r.

Definition set_fill (ws : worksheet) (c : string) (r : nat) (f : string)
  : worksheet :=
  update_cell (fun cl => {| c_value := c_value cl; c_fill := Some f |}) ws c r.

(** [ws.spliceRows(start, 0, [null])]: the rows from [start] on move one
    index up and a blank row takes the index [start]. *)
Definition spliceRows (ws : worksheet) (start : nat) : worksheet :=
  let ws' := ensure_rows ws (start - 1) in
  take (start - 1) ws' ++ (∅ : gmap string cell) :: drop (start - 1) ws'.

(** The record the scraper returns for a product. *)
Record webData := {
  wd_A2V : value;
  wd_URL : value;
  wd_Produkttitel : value;
  wd_WeitereArtikelnummer : value;
  wd_Gewicht : value;
  wd_Abmessung : value;
  wd_Werkstoff : value;
  wd_Materialklassifizierung : value
}.

Section Handlers.

(** What the file takes from outside: the case conversions and the number
    formatting of the engine, the configured weight tolerance, and [a2vUrl]
    of the scraper module. *)
Variable toLowerCase toUpperCase : jsstring -> jsstring.
Variable num_to_string : num -> jsstring.
Variable toFixed : num -> nat -> jsstring.
Variable WEIGHT_TOL_PCT : num.
Variable a2vUrl : jsstring -> value.

Let str := to_string num_to_string.

(** [String(v).trim().toLowerCase().replace(/\s+/g, ' ')] *)
Definition fold_text (v : value) : jsstring :=
  replace_all re_spaces (js " ") (toLowerCase (trim (str v))).

Definition compareText (excel web : value) : verdict :=
  if negb (truthy excel) && negb (truthy web)
  then {| v_status := ORANGE; v_comment := js "Beide fehlen" |}
  else if negb (truthy excel)
  then {| v_status := ORANGE; v_comment := js "Excel fehlt" |}
  else if negb (truthy web)
  then {| v_status := ORANGE; v_comment := js "Web fehlt" |}
  else if bool_decide (fold_text excel = fold_text web)
  then {| v_status := GREEN; v_comment := js "identisch" |}
  else {| v_status := RED; v_comment := js "abweichend" |}.

Definition comparePartNo (excel web : value) : verdict :=
  if negb (truthy excel) && negb (truthy web)
  then {| v_status := ORANGE; v_comment := js "Beide fehlen" |}
  else if negb (truthy excel)
  then {| v_status := ORANGE; v_comment := js "Excel fehlt" |}
  else if negb (truthy web)
  then {| v_status := ORANGE; v_comment := js "Web fehlt" |}
  else if bool_decide (normPartNo toUpperCase num_to_string excel
                       = normPartNo toUpperCase num_to_string web)
  then {| v_status := GREEN; v_comment := js "identisch (normalisiert)" |}
  else {| v_status := RED;
          v_comment := js "abweichend: Excel " ++ str excel
                       ++ js " vs. Web " ++ str web |}.

Definition compareWeight (excelVal webVal : value) : verdict :=
  match normalizeWeightToKg toLowerCase num_to_string excelVal,
        normalizeWeightToKg toLowerCase num_to_string webVal with
  | None, None => {| v_status := ORANGE; v_comment := js "Beide fehlen" |}
  | None, Some _ => {| v_status := ORANGE; v_comment := js "Excel fehlt" |}
  | Some _, None =>
      {| v_status := ORANGE; v_comment := js "Web fehlt/unklar" |}
  | Some exKg, Some wbKg =>
      let ok := withinToleranceKG (Some exKg) (Some wbKg)
                  (Some WEIGHT_TOL_PCT) in
      let diffPct := mul (div (sub wbKg exKg) (max c_1e_9 (abs exKg)))
                         (of_Z 100) in
      if ok
      then {| v_status := GREEN;
              v_comment := [916%N] ++ js " " ++ toFixed diffPct 1
                           ++ js "%" |}
      else {| v_status := RED;
              v_comment := js "Excel " ++ toFixed exKg 3 ++ js " kg vs. Web "
                           ++ toFixed wbKg 3 ++ js " kg ("
                           ++ toFixed diffPct 1 ++ js "%)" |}
  end.

(** [!x] for a component that is a number or [null]. *)
Definition missing (x : option num) : bool :=
  match x with
  | Some n => negb (Num.truthy n)
  | None => true
  end.

(** The text of [x || ''] inside a template literal. *)
Definition shown (x : option num) : jsstring :=
  match x with
  | Some n => if Num.truthy n then num_to_string n else []
  | None => []
  end.

(** The literal [1e-6]. *)
Definition c_1e_6 : num := nearest_decimal false 1 6.

Definition eq_dim (a b : option num) : bool :=
  match a, b with
  | Some x, Some y => ltb (abs (sub x y)) c_1e_6
  | _, _ => false
  end.

Definition compareDimensions (excelU excelV excelW webDimText : value)
  : verdict :=
  let l := toNumber num_to_string excelU in
  let b := toNumber num_to_string excelV in
  let h := toNumber num_to_string excelW in
  let fromWeb := parseDimensionsToLBH toLowerCase num_to_string webDimText in
  let anyExcel := is_Some_b l || is_Some_b b || is_Some_b h in
  let noWeb := missing (L fromWeb) && missing (B fromWeb)
               && missing (H fromWeb) in
  if negb anyExcel && noWeb
  then {| v_status := ORANGE; v_comment := js "Beide fehlen" |}
  else if negb anyExcel
  then {| v_status := ORANGE; v_comment := js "Excel fehlt" |}
  else if noWeb
  then {| v_status := ORANGE; v_comment := js "Web fehlt/unklar" |}
  else if eq_dim l (L fromWeb) && eq_dim b (B fromWeb)
          && eq_dim h (H fromWeb)
  then {| v_status := GREEN;
          v_comment := js "L" ++ [215%N] ++ js "B" ++ [215%N]
                       ++ js "H identisch (mm)" |}
  else {| v_status := RED;
          v_comment := js "Excel " ++ shown l ++ [215%N] ++ shown b
                       ++ [215%N] ++ shown h ++ js " mm vs. Web "
                       ++ shown (L fromWeb) ++ [215%N]
                       ++ shown (B fromWeb) ++ [215%N]
                       ++ shown (H fromWeb) ++ js " mm" |}.

(** *** POST /api/scrape

    The handler as a program over one effect, the call of
    [scraper.scrapeOne]; the call answers with a record, or throws an
    error with a message. *)
Variable product : Type.

Inductive response :=
| Status400 (error : jsstring)
| Success (data : product)
| Status500 (error : jsstring).

Inductive proc (A : Type) :=
| Ret (a : A)
| ScrapeOne (key : jsstring) (k : product + jsstring -> proc A).
Arguments Ret {A} a.
Arguments ScrapeOne {A} key k.

(** The normalised product number of a request field. *)
Definition request_key (articleNumber : value) : jsstring :=
  toUpperCase (trim (str (or_else articleNumber (VStr [])))).

Definition scrape_handler (articleNumber : value) : proc response :=
  let a2v := request_key articleNumber in
  if negb (startsWith a2v (js "A2V"))
  then Ret (Status400 (js "Nur A2V-Nummern erlaubt"))
  else ScrapeOne a2v (fun r =>
         match r with
         | inl data => Ret (Success data)
         | inr message => Ret (Status500 message)
         end).

(** Running a program against a scraper: the answer, and the keys the
    scraper was called with, in order. *)
Fixpoint run {A} (scrapeOne : jsstring -> product + jsstring) (p : proc A)
  : A * list jsstring :=
  match p with
  | Ret a => (a, [])
  | ScrapeOne key k =>
      let '(a, calls) := run scrapeOne (k (scrapeOne key)) in
      (a, key :: calls)
  end.

(** *** POST /api/process-excel, step 3: two rows per product *)

Variable results : gmap (list N) webData.

(** [anyValue]: one of the columns A, B, C, Z holds a non-blank value. *)
Definition non_blank (v : value) : bool :=
  truthy v && negb (bool_decide (trim (str v) = [])).

Definition anyValue (ws : worksheet) (r : nat) : bool :=
  existsb (fun c => non_blank (cell_value ws c r)) ["A"; "B"; "C"; "Z"]%string.

(** The product rows, in the order the first loop finds them. *)
Definition products (ws : worksheet) : list nat :=
  filter (fun r => anyValue ws r = true)
         (seq FIRST_DATA_ROW (S (lastRow ws) - FIRST_DATA_ROW)).

(** What the loop body reads from row [r] before it inserts anything. *)
Record row_data := {
  A2V : jsstring;
  manufNoExcel : value;
  titleExcel : value;
  weightExcel : value;
  lenExcel : value;
  widExcel : value;
  heiExcel : value;
  werkstoffExcel : value;
  noteExcel : value
}.

Definition read_row (ws : worksheet) (r : nat) : row_data :=
  {| A2V := toUpperCase (trim (str (or_else (cell_value ws "Z" r) (VStr []))));
     manufNoExcel := cell_value ws "E" r;
     titleExcel := cell_value ws "C" r;
     weightExcel := cell_value ws "S" r;
     lenExcel := cell_value ws "U" r;
     widExcel := cell_value ws "V" r;
     heiExcel := cell_value ws "W" r;
     werkstoffExcel := cell_value ws "P" r;
     noteExcel := cell_value ws "N" r |}.

Definition lookup_webData (a2v : jsstring) : webData :=
  let placeholder :=
    {| wd_A2V := VStr a2v; wd_URL := a2vUrl a2v;
       wd_Produkttitel := VStr []; wd_WeitereArtikelnummer := VStr [];
       wd_Gewicht := VStr []; wd_Abmessung := VStr [];
       wd_Werkstoff := VStr []; wd_Materialklassifizierung := VStr [] |} in
  if startsWith a2v (js "A2V")
  then default placeholder (results !! a2v)
  else placeholder.

(** One assignment to a cell of a given row. *)
Inductive write :=
| SetValue (c : string) (v : value)
| SetFill (c : string) (f : string).

Definition apply_write (r : nat) (ws : worksheet) (w : write) : worksheet :=
  match w with
  | SetValue c v => set_value ws c r v
  | SetFill c f => set_fill ws c r f
  end.

Definition apply_writes (ws : worksheet) (r : nat) (l : list write)
  : worksheet :=
  fold_left (apply_write r) l ws.

Definition when_present (c : string) (x : option num) : list write :=
  match x with
  | Some n => [SetValue c (VNum n)]
  | None => []
  end.

Definition verdict_writes (c : string) (v : verdict) : list write :=
  [SetValue c (VStr (v_comment v)); SetFill c (statusCellFill (v_status v))].

(** The assignments to the web-data row, in the order of the source. *)
Definition web_writes (d : row_data) : list write :=
  let wd := lookup_webData (A2V d) in
  let dimParsed :=
    parseDimensionsToLBH toLowerCase num_to_string (wd_Abmessung wd) in
  [ SetValue "Z" (or_else (VStr (A2V d)) (VStr []));
    SetValue "E" (or_else (wd_WeitereArtikelnummer wd) (VStr []));
    SetValue "C" (or_else (wd_Produkttitel wd) (VStr []));
    SetValue "S" (or_else (wd_Gewicht wd) (VStr [])) ]
  ++ when_present "U" (L dimParsed)
  ++ when_present "V" (B dimParsed)
  ++ when_present "W" (H dimParsed)
  ++ [ SetValue "P" (or_else (wd_Werkstoff wd) (VStr []));
       SetValue "N"
         (or_else (VStr (mapMaterialClassificationToExcel toLowerCase
                           num_to_string
                           (wd_Materialklassifizierung wd)))
                  (VStr [])) ].

(** The assignments to the comparison row, in the order of the source. *)
Definition cmp_writes (d : row_data) : list write :=
  let wd := lookup_webData (A2V d) in
  let a2v := VStr (A2V d) in
  let mappedN :=
    or_else (VStr (mapMaterialClassificationToExcel toLowerCase num_to_string
                     (wd_Materialklassifizierung wd)))
            (VStr []) in
  verdict_writes "Z"
    (compareText (or_else a2v (VStr []))
                 (or_else (or_else (wd_A2V wd) a2v) (VStr [])))
  ++ verdict_writes "E"
       (comparePartNo (or_else (manufNoExcel d) (VStr []))
                      (or_else (wd_WeitereArtikelnummer wd) (VStr [])))
  ++ verdict_writes "C"
       (compareText (or_else (titleExcel d) (VStr []))
                    (or_else (wd_Produkttitel wd) (VStr [])))
  ++ verdict_writes "S" (compareWeight (weightExcel d) (wd_Gewicht wd))
  ++ verdict_writes "U"
       (compareDimensions (lenExcel d) (widExcel d) (heiExcel d)
                          (wd_Abmessung wd))
  ++ verdict_writes "P"
       (compareText (or_else (werkstoffExcel d) (VStr []))
                    (or_else (wd_Werkstoff wd) (VStr [])))
  ++ verdict_writes "N"
       (compareText
          (VStr (toUpperCase (str (or_else (noteExcel d) (VStr [])))))
          (VStr (toUpperCase (str mappedN)))).

(** The body of the second loop for the product row [r]. *)
Definition process_row (ws : worksheet) (r : nat) : worksheet :=
  let d := read_row ws r in
  let insertAt := (r + 1)%nat in
  let ws1 := spliceRows ws insertAt in
  let ws2 := spliceRows ws1 (insertAt + 1) in
  let webRow := insertAt in
  let cmpRow := (insertAt + 1)%nat in
  let ws3 := apply_writes ws2 webRow (web_writes d) in
  apply_writes ws3 cmpRow (cmp_writes d).

(** [for (let i = products.length - 1; i >= 0; i--)], with [n] the number
    of indices still to visit. *)
Fixpoint insert_loop (prods : list nat) (n : nat) (ws : worksheet)
  : worksheet :=
  match n with
  | O => ws
  | S i =>
      match prods !! i with
      | Some r => insert_loop prods i (process_row ws r)
      | None => ws
      end
  end.

(** The pass over one worksheet. *)
Definition worksheet_pass (ws : worksheet) : worksheet :=
  if (lastRow ws <? HEADER_ROW)%nat then ws
  else
    let prods := products ws in
    insert_loop prods (length prods) ws.

(** *** POST /api/process-excel, step 1: the product numbers of column Z *)

(** What the first loop pushes for the value of a cell of column Z. *)
Definition a2v_of_cell (val : value) : option jsstring :=
  if truthy val && negb (bool_decide (trim (str val) = []))
  then
    let a2v := toUpperCase (trim (str val)) in
    if startsWith a2v (js "A2V") then Some a2v else None
  else None.

Definition sheet_a2vs (ws : worksheet) : list jsstring :=
  omap (fun r => a2v_of_cell (cell_value ws "Z" r))
       (seq FIRST_DATA_ROW (S (lastRow ws) - FIRST_DATA_ROW)).

(** [a2vs], the list handed to [scraper.scrapeMany]. *)
Definition collect_a2vs (wb : list worksheet) : list jsstring :=
  flat_map sheet_a2vs wb.

End Handlers.

Arguments Status400 {product} error.
Arguments Success {product} data.
Arguments Status500 {product} error.
Arguments Ret {product A} a.
Arguments ScrapeOne {product A} key k.
Arguments run {product A} scrapeOne p.

End Server.

(** ** Notions the properties are stated with *)

Module Spec.

Import Text Num Js Utils Server.

(** [w] occurs in [s]. *)
Definition contains (w s : jsstring) : Prop :=
  exists pre post, s = pre ++ w ++ post.

(** Every maximal run of code units of the class [cls] replaced by [rep];
    [in_run] says that the code unit before belonged to a run. *)
Fixpoint replace_runs (cls : N -> bool) (rep : jsstring) (in_run : bool)
    (s : jsstring) : jsstring :=
  match s with
  | [] => []
  | c :: s' =>
      if cls c then
        (if in_run then [] else rep) ++ replace_runs cls rep true s'
      else c :: replace_runs cls rep false s'
  end.

(** Every run of whitespace collapsed to one space. *)
Definition collapse_spaces (s : jsstring) : jsstring :=
  replace_runs is_space (js " ") false s.

(** The canonical code of [mapMaterialClassificationToExcel]. *)
Definition material_code : jsstring := js "OHNE/N/N/N/N".

(** A lower-cased text carries the confident signal: the negation marker,
    one of the weld, cast, adhesive or forge keywords, and the relevance
    marker. *)
Definition confident (s : jsstring) : Prop :=
  contains (js "nicht") s
  /\ (contains (js "schwei") s \/ contains (js "schwei" ++ [223%N]) s
      \/ contains (js "schweiss") s \/ contains (js "guss") s
      \/ contains (js "klebe") s \/ contains (js "schmiede") s)
  /\ contains (js "relev") s.

(** The lower-case letters of the Basic Latin and Latin-1 Supplement
    blocks. *)
Definition is_lowercase (c : N) : bool :=
  is_az c || (c =? 181)%N || in_range 223 246 c || in_range 248 255 c.

(** A code unit that upper-casing leaves alone and that is no lower-case
    letter. *)
Definition settled (u : N) : bool :=
  bool_decide (upper_unit u = [u]) && negb (is_lowercase u).

Definition units_below (n : nat) : list N := map N.of_nat (seq 0 n).

(** The number a decimal literal denotes. *)
Definition decimal (s : string) : num := parseFloat (js s).

(** A component that is absent or zero. *)
Definition zero_or_absent (x : option num) : Prop :=
  x = None \/ exists sg, x = Some (S754_zero sg).

(** A tolerance as the configuration allows it: absent, or a number that is
    not negative. *)
Definition non_negative (tol : option num) : Prop :=
  match tol with
  | Some t => leb (of_Z 0) t = true
  | None => True
  end.

(** The number is zero. *)
Definition is_zero (t : num) : bool :=
  match t with
  | S754_zero _ => true
  | _ => false
  end.

(** LATIN SMALL LETTER KRA (U+0138), a lower-case letter that has no
    upper-case form: [toUpperCase] of the engine leaves it as it is, as the
    tables of [Text] do. *)
Definition kra : N := 312%N.

(** The code unit before the position reached after reading [w]. *)
Definition last_unit (p : option N) (w : jsstring) : option N :=
  match last w with Some c => Some c | None => p end.

(** Whether a match starts at the current position, and whether one starts
    at it or later. *)
Definition here (r : regex) (p : option N) (s : jsstring) : bool :=
  match match_here r p s with Some _ => true | None => false end.

Fixpoint somewhere (r : regex) (p : option N) (s : jsstring) : bool :=
  here r p s ||
  match s with
  | [] => false
  | c :: s' => somewhere r (Some c) s'
  end.

(** The repetition loop of [mt], named. *)
Section More.
Context {A : Type} (r1 : regex) (k : option N -> jsstring -> option A).

Fixpoint more (fuel : nat) (p : option N) (t : jsstring) : option A :=
  match fuel with
  | O => k p t
  | S fuel' =>
      match mt r1 p t (fun p' t' =>
              if (length t' <? length t)%nat then more fuel' p' t'
              else None) with
      | Some a => Some a
      | None => k p t
      end
  end.

End More.

(** The first run of the class in [s]: what stands before it and what
    follows it. *)
Fixpoint split_run (cls : N -> bool) (s : jsstring)
  : option (jsstring * jsstring) :=
  match s with
  | [] => None
  | c :: s' =>
      if cls c then Some ([], drop_while cls s')
      else match split_run cls s' with
           | Some (pre, rest) => Some (c :: pre, rest)
           | None => None
           end
  end.

Section Sheet.

Variable toLowerCase toUpperCase : jsstring -> jsstring.
Variable num_to_string : num -> jsstring.
Variable toFixed : num -> nat -> jsstring.
Variable WEIGHT_TOL_PCT : num.
Variable a2vUrl : jsstring -> value.
Variable results : gmap (list N) webData.

(** The text [compareText] compares: trimmed, lower-cased, whitespace
    collapsed. *)
Definition folded (v : value) : jsstring :=
  collapse_spaces (toLowerCase (trim (to_string num_to_string v))).

(** One assignment, seen from the row it goes to. *)
Definition write_cell (rw : gmap string cell) (w : write) : gmap string cell :=
  match w with
  | SetValue c v =>
      <[c := {| c_value := v;
                c_fill := c_fill (default blank_cell (rw !! c)) |}]> rw
  | SetFill c f =>
      <[c := {| c_value := c_value (default blank_cell (rw !! c));
                c_fill := Some f |}]> rw
  end.

(** The row a list of assignments makes of a blank row. *)
Definition written (l : list write) : gmap string cell :=
  fold_left write_cell l ∅.

(** A row on its own: whether it is a product row, and the two rows the
    pass adds for it. *)
Definition is_product_row (rw : gmap string cell) : bool :=
  anyValue num_to_string [rw] 1.
Definition web_row (rw : gmap string cell) : gmap string cell :=
  written (web_writes toLowerCase num_to_string a2vUrl results
             (read_row toUpperCase num_to_string [rw] 1)).
Definition cmp_row (rw : gmap string cell) : gmap string cell :=
  written (cmp_writes toLowerCase toUpperCase num_to_string toFixed
             WEIGHT_TOL_PCT a2vUrl results
             (read_row toUpperCase num_to_string [rw] 1)).

Definition block (rw : gmap string cell) : list (gmap string cell) :=
  if is_product_row rw then [rw; web_row rw; cmp_row rw] else [rw].

(** The augmented sheet, built row by row: the header rows, then every
    data row, a product row followed by its two new rows. *)
Definition augmented (ws : list (gmap string cell))
  : list (gmap string cell) :=
  take HEADER_ROW ws ++ flat_map block (drop HEADER_ROW ws).

(** The product rows among [data], whose first row has the number [k]. *)
Fixpoint product_rows (k : nat) (data : list (gmap string cell)) : list nat :=
  match data with
  | [] => []
  | rw :: data' =>
      (if is_product_row rw then [k] else []) ++ product_rows (S k) data'
  end.

(** The number of product rows above row [r]. *)
Definition before (ws : list (gmap string cell)) (r : nat) : nat :=
  length (filter (fun p => p < r) (products num_to_string ws)).

End Sheet.

End Spec.

(** ** Shapes of texts and cells, for the statements below *)

Module TextSpec.
Import Text Num Js Utils Server Spec.

(** The text holds a decimal digit. *)
Definition has_digit (s : jsstring) : bool := existsb is_digit s.

(** The text starts with a digit, or with a minus sign and a digit. *)
Definition starts_number (s : jsstring) : bool :=
  match s with
  | c :: t =>
      is_digit c
      || ((c =? 45)%N && match t with d :: _ => is_digit d | [] => false end)
  | [] => false
  end.


(** The number of commas of a text. *)
Definition commas (s : jsstring) : nat :=
  length (filter (fun c => c = 44%N) s).

(** The first code unit of the class in [s]: what stands before it and
    what follows it. *)
Fixpoint split_at (cls : N -> bool) (s : jsstring)
  : option (jsstring * jsstring) :=
  match s with
  | [] => None
  | c :: t =>
      if cls c then Some ([], t)
      else match split_at cls t with
           | Some (pre, rest) => Some (c :: pre, rest)
           | None => None
           end
  end.

(** The three multiplication signs of a dimension text, read as one. *)
Definition one_separator (c : N) : N :=
  if (c =? 215)%N || (c =? 88)%N || (c =? 120)%N then 120%N else c.


(** The text [parseDimensionsToLBH] takes the numbers from. *)
Definition dimension_text (raw : jsstring) : jsstring :=
  replace_all re_spaces []
    (replace_first (js ",") (js ".")
       (replace_all re_times (js "x") (toLowerCase (trim raw)))).


(** A text in lower case and without separators. *)
Definition plain (s : jsstring) : jsstring :=
  filter (fun c => is_separator c = false) (toLowerCase s).

(** For one code unit: removing separators after upper-casing gives what
    upper-casing gives of the plain form. *)
Definition plain_unit_ok (c : N) : bool :=
  bool_decide (filter (fun u => is_separator u = false) (upper_unit c)
               = toUpperCase (plain [c])).

End TextSpec.

Module CellSpec.
Import Text Num Js Utils Server Spec.
(** One assignment, seen from the cell of column [c]. *)
Definition cell_write (c : string) (cl : cell) (w : write) : cell :=
  match w with
  | SetValue c' v =>
      if decide (c' = c) then {| c_value := v; c_fill := c_fill cl |} else cl
  | SetFill c' f =>
      if decide (c' = c) then {| c_value := c_value cl; c_fill := Some f |}
      else cl
  end.

(** The cell that shows a verdict. *)
Definition verdict_cell (v : verdict) : cell :=
  {| c_value := VStr (v_comment v);
     c_fill := Some (statusCellFill (v_status v)) |}.

(** A cell that holds a value and no fill. *)
Definition value_cell (v : value) : cell :=
  {| c_value := v; c_fill := None |}.

Section Sheet.

Variable toLowerCase toUpperCase : jsstring -> jsstring.
Variable num_to_string : num -> jsstring.
Variable toFixed : num -> nat -> jsstring.
Variable WEIGHT_TOL_PCT : num.
Variable a2vUrl : jsstring -> value.
Variable results : gmap (list N) webData.

(** The verdict shown in column [c] of the comparison row of a product row
    with the data [d]; no verdict goes to the other columns. *)
Definition column_verdict (d : row_data) (c : string) : option verdict :=
  let wd := lookup_webData a2vUrl results (A2V d) in
  let a2v := VStr (A2V d) in
  if decide (c = "Z") then
    Some (compareText toLowerCase num_to_string (or_else a2v (VStr []))
            (or_else (or_else (wd_A2V wd) a2v) (VStr [])))
  else if decide (c = "E") then
    Some (comparePartNo toUpperCase num_to_string
            (or_else (manufNoExcel d) (VStr []))
            (or_else (wd_WeitereArtikelnummer wd) (VStr [])))
  else if decide (c = "C") then
    Some (compareText toLowerCase num_to_string
            (or_else (titleExcel d) (VStr []))
            (or_else (wd_Produkttitel wd) (VStr [])))
  else if decide (c = "S") then
    Some (compareWeight toLowerCase num_to_string toFixed WEIGHT_TOL_PCT
            (weightExcel d)
            (wd_Gewicht wd))
  else if decide (c = "U") then
    Some (compareDimensions toLowerCase num_to_string (lenExcel d) (widExcel d)
            (heiExcel d) (wd_Abmessung wd))
  else if decide (c = "P") then
    Some (compareText toLowerCase num_to_string
            (or_else (werkstoffExcel d) (VStr []))
            (or_else (wd_Werkstoff wd) (VStr [])))
  else if decide (c = "N") then
    Some (compareText toLowerCase num_to_string
            (VStr (toUpperCase
                     (to_string num_to_string
                        (or_else (noteExcel d) (VStr [])))))
            (VStr (toUpperCase
                     (mapMaterialClassificationToExcel toLowerCase num_to_string
                        (wd_Materialklassifizierung wd)))))
  else None.

(** The value shown in column [c] of the web-data row. *)
Definition column_web_value (d : row_data) (c : string) : option value :=
  let wd := lookup_webData a2vUrl results (A2V d) in
  let dims :=
    parseDimensionsToLBH toLowerCase num_to_string (wd_Abmessung wd) in
  if decide (c = "Z") then Some (VStr (A2V d))
  else if decide (c = "E") then
    Some (or_else (wd_WeitereArtikelnummer wd) (VStr []))
  else if decide (c = "C") then Some (or_else (wd_Produkttitel wd) (VStr []))
  else if decide (c = "S") then Some (or_else (wd_Gewicht wd) (VStr []))
  else if decide (c = "U") then VNum <$> L dims
  else if decide (c = "V") then VNum <$> B dims
  else if decide (c = "W") then VNum <$> H dims
  else if decide (c = "P") then Some (or_else (wd_Werkstoff wd) (VStr []))
  else if decide (c = "N") then
    Some (VStr (mapMaterialClassificationToExcel toLowerCase num_to_string
                  (wd_Materialklassifizierung wd)))
  else None.

End Sheet.

End CellSpec.

(** ** Facts about the string functions *)

Module TextFacts.

Import Text Spec.

Lemma startsWith_app (s w : jsstring) :
  startsWith s w = true <-> exists post, s = w ++ post.
Proof.
  revert s. induction w as [|a w IH]; intros s; simpl.
  - split; [intros _; exists s; reflexivity | reflexivity].
  - destruct s as [|c s]; simpl.
    + split; [discriminate | intros [post Hp]; discriminate].
    + rewrite andb_true_iff, N.eqb_eq, IH. split.
      * intros [-> [post ->]]. exists post. reflexivity.
      * intros [post Hp]. injection Hp as -> ->. split; [reflexivity | exists post; reflexivity].
Qed.

Lemma last_unit_cons p a w : last_unit p (a :: w) = last_unit (Some a) w.
Proof.
  unfold last_unit. destruct w as [|b w]; [reflexivity|].
  change (last (a :: b :: w)) with (last (b :: w)).
  destruct (last (b :: w)) eqn:E; [reflexivity|].
  apply last_None in E. discriminate.
Qed.

Lemma mt_lit {A} (w : jsstring) p s (k : option N -> jsstring -> option A) :
  mt (lit w) p s k =
  if startsWith s w then k (last_unit p w) (drop (length w) s) else None.
Proof.
  revert p s. induction w as [|a w IH]; intros p s.
  - reflexivity.
  - change (lit (a :: w)) with (Cat (Chr a) (lit w)).
    rewrite last_unit_cons. destruct s as [|c s]; [reflexivity|].
    simpl. rewrite (N.eqb_sym c a). destruct (N.eqb_spec a c) as [->|]; [apply IH | reflexivity].
Qed.

Lemma exec_somewhere r p s :
  match exec r p s with Some _ => true | None => false end = somewhere r p s.
Proof.
  revert p. induction s as [|c s IH]; intros p; simpl; unfold here.
  - destruct (match_here r p []) as [[[m p'] s']|]; reflexivity.
  - destruct (match_here r p (c :: s)) as [[[m p'] s']|]; [reflexivity|].
    simpl. rewrite <- IH. destruct (exec r (Some c) s) as [[[[pre m] p'] rest]|]; reflexivity.
Qed.

Lemma test_somewhere r s : test r s = somewhere r None s.
Proof. apply exec_somewhere. Qed.

Lemma here_lit w p s : here (lit w) p s = startsWith s w.
Proof.
  unfold here, match_here. rewrite mt_lit. destruct (startsWith s w); reflexivity.
Qed.

Lemma here_Alt r1 r2 p s : here (Alt r1 r2) p s = here r1 p s || here r2 p s.
Proof.
  unfold here, match_here. simpl.
  destruct (mt r1 p s _) as [[p' s']|]; reflexivity.
Qed.

Lemma somewhere_Alt r1 r2 p s :
  somewhere (Alt r1 r2) p s = somewhere r1 p s || somewhere r2 p s.
Proof.
  revert p. induction s as [|c s IH]; intros p; simpl; rewrite here_Alt.
  - rewrite !orb_false_r. reflexivity.
  - rewrite IH. destruct (here r1 p (c :: s)), (here r2 p (c :: s)),
      (somewhere r1 (Some c) s), (somewhere r2 (Some c) s); reflexivity.
Qed.

Lemma test_Alt r1 r2 s : test (Alt r1 r2) s = test r1 s || test r2 s.
Proof. rewrite !test_somewhere. apply somewhere_Alt. Qed.

Lemma somewhere_lit w p s : somewhere (lit w) p s = true <-> contains w s.
Proof.
  revert p. induction s as [|c s IH]; intros p; simpl; rewrite here_lit.
  - rewrite orb_false_r, startsWith_app. split.
    + intros [post ->]. exists [], post. reflexivity.
    + intros (pre & post & E). destruct pre; [|discriminate]. eauto.
  - rewrite orb_true_iff, startsWith_app, IH. split.
    + intros [[post ->] | (pre & post & ->)].
      * exists [], post. reflexivity.
      * exists (c :: pre), post. reflexivity.
    + intros (pre & post & E). destruct pre as [|x pre].
      * left. eauto.
      * right. injection E as -> ->. exists pre, post. reflexivity.
Qed.

Lemma test_lit w s : test (lit w) s = true <-> contains w s.
Proof. rewrite test_somewhere. apply somewhere_lit. Qed.


Lemma mt_Plus {A} r1 p s (k : option N -> jsstring -> option A) :
  mt (Plus r1) p s k = mt r1 p s (more r1 k (length s)).
Proof. reflexivity. Qed.

Lemma more_Class cls fuel p t :
  (length t <= fuel)%nat ->
  exists p', more (Class cls) (fun p' s' => Some (p', s')) fuel p t
             = Some (p', drop_while cls t).
Proof.
  revert p t. induction fuel as [|fuel IH]; intros p t Hl.
  - destruct t; [|simpl in Hl; lia]. exists p. reflexivity.
  - destruct t as [|c t]; [exists p; reflexivity|].
    simpl in Hl. simpl. destruct (cls c).
    + destruct (Nat.ltb_spec (length t) (S (length t))) as [_|]; [|lia].
      destruct (IH (Some c) t ltac:(lia)) as [p' ->]. exists p'. reflexivity.
    + exists p. reflexivity.
Qed.

Lemma drop_while_length cls s : (length (drop_while cls s) <= length s)%nat.
Proof. induction s as [|c s IH]; simpl; [lia|]. destruct (cls c); simpl; lia. Qed.

Lemma mt_Plus_Class {A} cls p c s (k : option N -> jsstring -> option A) :
  mt (Plus (Class cls)) p (c :: s) k =
  if cls c then more (Class cls) k (S (length s)) (Some c) s else None.
Proof. reflexivity. Qed.

Lemma match_here_run cls p c s :
  cls c = true ->
  exists m p', match_here (Plus (Class cls)) p (c :: s)
               = Some (m, p', drop_while cls s) /\ m <> [].
Proof.
  intros Hc. unfold match_here. rewrite mt_Plus_Class, Hc.
  destruct (more_Class cls (S (length s)) (Some c) s) as [p' ->]; [lia|].
  pose proof (drop_while_length cls s).
  eexists _, p'. split; [reflexivity|].
  simpl length. replace (S (length s) - length (drop_while cls s))%nat
    with (S (length s - length (drop_while cls s))) by lia.
  discriminate.
Qed.

Lemma match_here_no_run cls p s :
  match s with c :: _ => cls c = false | [] => True end ->
  match_here (Plus (Class cls)) p s = None.
Proof.
  destruct s as [|c s]; [reflexivity|]. intros Hc.
  unfold match_here. rewrite mt_Plus_Class, Hc. reflexivity.
Qed.

Lemma exec_run cls p s :
  match split_run cls s with
  | Some (pre, rest) =>
      exists m p', exec (Plus (Class cls)) p s = Some (pre, m, p', rest)
                   /\ m <> []
  | None => exec (Plus (Class cls)) p s = None
  end.
Proof.
  revert p. induction s as [|c s IH]; intros p; [reflexivity|].
  simpl. destruct (cls c) eqn:Hc.
  - destruct (match_here_run cls p c s Hc) as (m & p' & -> & Hm). eauto.
  - rewrite match_here_no_run by exact Hc.
    specialize (IH (Some c)). destruct (split_run cls s) as [[pre rest]|].
    + destruct IH as (m & p' & -> & Hm). eauto.
    + rewrite IH. reflexivity.
Qed.

Lemma replace_runs_true cls rep s :
  replace_runs cls rep true s = replace_runs cls rep false (drop_while cls s).
Proof.
  induction s as [|c s IH]; [reflexivity|]. simpl.
  destruct (cls c) eqn:Hc; [exact IH|]. simpl. rewrite Hc. reflexivity.
Qed.

Lemma split_run_spec cls rep s :
  match split_run cls s with
  | Some (pre, rest) =>
      replace_runs cls rep false s
      = pre ++ rep ++ replace_runs cls rep false rest
      /\ (length rest < length s)%nat
  | None => replace_runs cls rep false s = s
  end.
Proof.
  induction s as [|c s IH]; [reflexivity|]. simpl.
  destruct (cls c) eqn:Hc.
  - rewrite replace_runs_true. pose proof (drop_while_length cls s).
    split; [reflexivity | simpl; lia].
  - destruct (split_run cls s) as [[pre rest]|].
    + destruct IH as [-> Hl]. split; [reflexivity | simpl; lia].
    + rewrite IH. reflexivity.
Qed.

Lemma replace_all_from_runs cls rep fuel p s :
  (length s < fuel)%nat ->
  replace_all_from fuel (Plus (Class cls)) rep p s
  = replace_runs cls rep false s.
Proof.
  revert p s. induction fuel as [|fuel IH]; intros p s Hl; [lia|].
  simpl. pose proof (exec_run cls p s) as He.
  pose proof (split_run_spec cls rep s) as Hs.
  destruct (split_run cls s) as [[pre rest]|].
  - destruct He as (m & p' & -> & Hm). destruct Hs as [-> Hr].
    destruct m as [|x m]; [congruence|].
    rewrite IH by lia. reflexivity.
  - rewrite He, Hs. reflexivity.
Qed.

(** A global replacement of the runs of a class is [replace_runs]. *)
Lemma replace_all_runs cls rep s :
  replace_all (Plus (Class cls)) rep s = replace_runs cls rep false s.
Proof. apply replace_all_from_runs. lia. Qed.

Lemma replace_runs_nil cls b s :
  replace_runs cls [] b s = filter (fun c => cls c = false) s.
Proof.
  revert b. induction s as [|c s IH]; intros b; [reflexivity|]. simpl.
  destruct (cls c) eqn:Hc.
  - rewrite filter_cons_False by congruence.
    destruct b; simpl; apply IH.
  - rewrite filter_cons_True by assumption. rewrite IH. reflexivity.
Qed.

End TextFacts.

(** ** Properties of utils.js *)

Module UtilsProofs.

Import Text Num Js Utils Spec TextFacts.

(** The literals used below denote the doubles the float notation of the
    prover gives them. *)
Lemma decimal_literals :
  decimal "0.0005" = Prim2SF 0.0005%float
  /\ decimal "3.2" = Prim2SF 3.2%float
  /\ decimal "2.5" = Prim2SF 2.5%float
  /\ decimal "98.5" = Prim2SF 98.5%float
  /\ c_1e_9 = Prim2SF 1e-9%float
  /\ of_Z 30000 = Prim2SF 30000%float.
Proof. vm_compute. repeat split. Qed.

Lemma strict_or_tolerant (t : num) :
  negb (Num.truthy t) || leb t (of_Z 0) = negb (ltb (of_Z 0) t).
Proof. destruct t as [[]|[]| |[] m e]; reflexivity. Qed.

(** The guard [!tolPct || tolPct <= 0] lets the positive tolerances
    through to the relative test and no other. *)
Lemma withinToleranceKG_guard (a b : num) (tol : option num) :
  withinToleranceKG (Some a) (Some b) tol
  = match tol with
    | Some t =>
        if ltb (of_Z 0) t
        then leb (abs (sub a b)) (mul (abs a) (div t (of_Z 100)))
        else ltb (abs (sub a b)) c_1e_9
    | None => ltb (abs (sub a b)) c_1e_9
    end.
Proof.
  unfold withinToleranceKG. destruct tol as [t|]; [|reflexivity].
  rewrite strict_or_tolerant. destruct (ltb (of_Z 0) t); reflexivity.
Qed.

Lemma non_negative_cases (t : num) :
  leb (of_Z 0) t = true -> ltb (of_Z 0) t = negb (is_zero t).
Proof. destruct t as [[]|[]| |[] m e]; cbv; congruence. Qed.



(** For every case conversion of the engine. *)
Section Conversions.

Variable toLowerCase : jsstring -> jsstring.
Variable num_to_string : num -> jsstring.

Local Abbreviation to_string := (Js.to_string num_to_string).
Local Abbreviation mapMaterialClassificationToExcel :=
  (Utils.mapMaterialClassificationToExcel toLowerCase num_to_string).

Lemma classify_truthy text :
  truthy text = true ->
  mapMaterialClassificationToExcel text =
  let s := toLowerCase (to_string text) in
  if test re_nicht s
     && (test re_schweiss s || test re_guss s || test re_klebe s
         || test re_schmiede s)
     && test re_relev s
  then material_code else [].
Proof.
  intros Ht. unfold mapMaterialClassificationToExcel. rewrite Ht. reflexivity.
Qed.

Lemma confident_test s :
  test re_nicht s
  && (test re_schweiss s || test re_guss s || test re_klebe s
      || test re_schmiede s)
  && test re_relev s = true <-> confident s.
Proof.
  unfold confident, re_schweiss.
  rewrite !andb_true_iff, !orb_true_iff, !test_Alt, !orb_true_iff.
  unfold re_nicht, re_guss, re_klebe, re_schmiede, re_relev.
  rewrite !test_lit. tauto.
Qed.

(** C8. [mapMaterialClassificationToExcel] returns the fixed code exactly
    when the text is present and its lower-cased form contains the negation
    marker, one of the four keywords and the relevance marker; in every
    other case, absent input included, it returns the empty string.  The
    two examples follow as soon as the engine lower-cases their letters of
    the Basic Latin block as expected. *)
Theorem classify_material_iff (text : value) :
  (mapMaterialClassificationToExcel text = material_code
   <-> truthy text = true /\ confident (toLowerCase (to_string text)))
  /\ (mapMaterialClassificationToExcel text = material_code
      \/ mapMaterialClassificationToExcel text = [])
  /\ mapMaterialClassificationToExcel VNull = []
  /\ mapMaterialClassificationToExcel VUndefined = []
  /\ mapMaterialClassificationToExcel (VStr []) = []
  /\ (toLowerCase (js "Nicht Schweiss relevant") = js "nicht schweiss relevant"
      -> mapMaterialClassificationToExcel (VStr (js "Nicht Schweiss relevant"))
         = material_code)
  /\ (toLowerCase (js "Schweiss relevant") = js "schweiss relevant"
      -> mapMaterialClassificationToExcel (VStr (js "Schweiss relevant")) = []).
Proof.
  split; [|split; [|split; [|split; [|split; [|split]]]]]; try reflexivity.
  - destruct (truthy text) eqn:Ht.
    + rewrite classify_truthy by assumption. cbv zeta.
      rewrite <- confident_test.
      destruct (_ && _ && _); split; try tauto; try discriminate.
      intros [_ H]; discriminate.
    + unfold Utils.mapMaterialClassificationToExcel. rewrite Ht. simpl.
      split; [discriminate | intros [H _]; discriminate].
  - destruct (truthy text) eqn:Ht.
    + rewrite classify_truthy by assumption. cbv zeta.
      destruct (_ && _ && _); auto.
    + unfold Utils.mapMaterialClassificationToExcel. rewrite Ht. auto.
  - intros E. rewrite classify_truthy by reflexivity. cbv zeta.
    cbn [Js.to_string]. rewrite E. vm_compute. reflexivity.
  - intros E. rewrite classify_truthy by reflexivity. cbv zeta.
    cbn [Js.to_string]. rewrite E. vm_compute. reflexivity.
Qed.

Variable toUpperCase : jsstring -> jsstring.

Local Abbreviation normPartNo := (Utils.normPartNo toUpperCase num_to_string).

Lemma normPartNo_filter (v : value) :
  normPartNo v =
  if truthy v then filter (fun c => is_separator c = false) (toUpperCase (to_string v))
  else [].
Proof.
  unfold normPartNo. destruct (truthy v); [|reflexivity]. simpl.
  unfold re_separators. rewrite replace_all_runs. apply replace_runs_nil.
Qed.

End Conversions.

Lemma classify_material_iff_witness :
  Utils.mapMaterialClassificationToExcel toLowerCase (fun _ => [])
    (VStr (js "Nicht Schweiss relevant")) = material_code
  /\ Utils.mapMaterialClassificationToExcel toLowerCase (fun _ => [])
       (VStr (js "Schweiss relevant")) = [].
Proof.
  pose proof (classify_material_iff toLowerCase (fun _ => []) VNull)
    as (_ & _ & _ & _ & _ & H1 & H2).
  split; [apply H1 | apply H2]; reflexivity.
Defined.

(** With the Latin-1 tables. *)
Section WithBuiltins.

Variable num_to_string : num -> jsstring.

Local Abbreviation to_string := (Js.to_string num_to_string).
Local Abbreviation mapMaterialClassificationToExcel :=
  (Utils.mapMaterialClassificationToExcel toLowerCase num_to_string).
Local Abbreviation normPartNo := (Utils.normPartNo toUpperCase num_to_string).
Local Abbreviation parseDimensionsToLBH :=
  (Utils.parseDimensionsToLBH toLowerCase num_to_string).
Local Abbreviation normalizeWeightToKg :=
  (Utils.normalizeWeightToKg toLowerCase num_to_string).

Lemma normPartNo_str (s : jsstring) :
  normPartNo (VStr s) = filter (fun c => is_separator c = false) (toUpperCase s).
Proof.
  rewrite normPartNo_filter. destruct s; reflexivity.
Qed.

Lemma units_below_In c : (c < 256)%N -> In c (units_below 256).
Proof.
  intros Hc. unfold units_below. apply in_map_iff.
  exists (N.to_nat c). split; [apply N2Nat.id|]. apply in_seq. lia.
Qed.

Lemma upper_unit_latin1 c u :
  (c < 256)%N -> In u (upper_unit c) -> settled u = true.
Proof.
  intros Hc Hu.
  assert (Hall : forallb (fun c => forallb settled (upper_unit c))
                   (units_below 256) = true) by (vm_compute; reflexivity).
  rewrite forallb_forall in Hall. specialize (Hall c (units_below_In c Hc)).
  rewrite forallb_forall in Hall. exact (Hall u Hu).
Qed.

Lemma upper_unit_above c : (256 <= c)%N -> upper_unit c = [c].
Proof.
  intros Hc. unfold upper_unit, in_range.
  repeat match goal with
  | |- context [(?a <=? ?b)%N] => destruct (N.leb_spec a b); try lia
  | |- context [(?a =? ?b)%N] => destruct (N.eqb_spec a b); try lia
  end; reflexivity.
Qed.

Lemma is_lowercase_above c : (256 <= c)%N -> is_lowercase c = false.
Proof.
  intros Hc. unfold is_lowercase, is_az, in_range.
  repeat match goal with
  | |- context [(?a <=? ?b)%N] => destruct (N.leb_spec a b); try lia
  | |- context [(?a =? ?b)%N] => destruct (N.eqb_spec a b); try lia
  end; reflexivity.
Qed.

Lemma toUpperCase_no_lowercase s :
  Forall (fun u => is_lowercase u = false) (toUpperCase s).
Proof.
  unfold toUpperCase. induction s as [|c s IH]; [constructor|].
  simpl. apply Forall_app. split; [|exact IH].
  destruct (N.lt_ge_cases c 256) as [Hc|Hc].
  - apply Forall_forall. intros u Hu. apply list_elem_of_In in Hu.
    pose proof (upper_unit_latin1 c u Hc Hu) as Hs.
    unfold settled in Hs. apply andb_true_iff in Hs as [_ Hs].
    destruct (is_lowercase u); [discriminate | reflexivity].
  - rewrite upper_unit_above by assumption. constructor; [|constructor].
    apply is_lowercase_above. assumption.
Qed.

Lemma toUpperCase_settled s :
  latin1 s -> Forall (fun u => upper_unit u = [u]) (toUpperCase s).
Proof.
  unfold toUpperCase. induction 1 as [|c s Hc _ IH]; [constructor|].
  simpl. apply Forall_app. split; [|exact IH].
  apply Forall_forall. intros u Hu. apply list_elem_of_In in Hu.
  pose proof (upper_unit_latin1 c u Hc Hu) as Hs.
  unfold settled in Hs. apply andb_true_iff in Hs as [Hs _].
  apply bool_decide_eq_true in Hs. exact Hs.
Qed.

Lemma toUpperCase_fixed t :
  Forall (fun u => upper_unit u = [u]) t -> toUpperCase t = t.
Proof.
  unfold toUpperCase. induction 1 as [|u t Hu _ IH]; [reflexivity|].
  simpl. rewrite Hu, IH. reflexivity.
Qed.


(** C1. The unit test of [parseDimensionsToLBH] takes the final "m" of
    "mm" for the metre: "30x20x10 mm" is scaled by 1000.  Without a unit,
    and with the unit "m", the triple is the expected one. *)
Theorem parseDimensions_mm_read_as_metres :
  parseDimensionsToLBH (VStr (js "30x20x10 mm"))
  = {| L := Some (of_Z 30000); B := Some (of_Z 20000); H := Some (of_Z 10000) |}
  /\ parseDimensionsToLBH (VStr (js "30x20x10"))
     = {| L := Some (of_Z 30); B := Some (of_Z 20); H := Some (of_Z 10) |}
  /\ parseDimensionsToLBH (VStr (js "0.3 x 0.2 x 0.1 m"))
     = {| L := Some (of_Z 300); B := Some (of_Z 200); H := Some (of_Z 100) |}.
Proof. vm_compute. repeat split. Qed.

(** C2. Whitespace is removed before the unit is looked for, so in
    "2.5 t" the letter follows a digit, [\bt\b] does not match, and the
    value is returned as kilograms.  The milligram and the unit-less
    examples are as expected. *)
Theorem normalizeWeight_ton_after_digit :
  normalizeWeightToKg (VStr (js "2.5 t")) = Some (decimal "2.5")
  /\ normalizeWeightToKg (VStr (js "2.5 t")) <> Some (of_Z 2500)
  /\ normalizeWeightToKg (VStr (js "500 mg")) = Some (decimal "0.0005")
  /\ normalizeWeightToKg (VStr (js "3,2")) = Some (decimal "3.2").
Proof. vm_compute. repeat split. discriminate. Qed.

End WithBuiltins.



End UtilsProofs.

(** ** Properties of the server *)

Module ServerProofs.

Import Text Num Js Utils Server Spec TextFacts.


(** For every case conversion of the engine. *)
Section Handlers.

Variable toLowerCase toUpperCase : jsstring -> jsstring.
Variable num_to_string : num -> jsstring.
Variable toFixed : num -> nat -> jsstring.
Variable WEIGHT_TOL_PCT : num.
Variable a2vUrl : jsstring -> value.
Variable product : Type.
Variable results : gmap (list N) webData.

Local Abbreviation to_string := (Js.to_string num_to_string).
Local Abbreviation parseDimensionsToLBH :=
  (Utils.parseDimensionsToLBH toLowerCase num_to_string).
Local Abbreviation toNumber := (Utils.toNumber num_to_string).
Local Abbreviation fold_text := (Server.fold_text toLowerCase num_to_string).
Local Abbreviation compareText :=
  (Server.compareText toLowerCase num_to_string).
Local Abbreviation compareDimensions :=
  (Server.compareDimensions toLowerCase num_to_string).
Local Abbreviation request_key :=
  (Server.request_key toUpperCase num_to_string).
Local Abbreviation scrape_handler :=
  (Server.scrape_handler toUpperCase num_to_string product).
Local Abbreviation anyValue := (Server.anyValue num_to_string).
Local Abbreviation products := (Server.products num_to_string).
Local Abbreviation read_row := (Server.read_row toUpperCase num_to_string).
Local Abbreviation web_writes :=
  (Server.web_writes toLowerCase num_to_string a2vUrl results).
Local Abbreviation cmp_writes :=
  (Server.cmp_writes toLowerCase toUpperCase num_to_string toFixed
      WEIGHT_TOL_PCT a2vUrl results).
Local Abbreviation process_row :=
  (Server.process_row toLowerCase toUpperCase num_to_string toFixed
      WEIGHT_TOL_PCT a2vUrl results).
Local Abbreviation insert_loop :=
  (Server.insert_loop toLowerCase toUpperCase num_to_string toFixed
      WEIGHT_TOL_PCT a2vUrl results).
Local Abbreviation worksheet_pass :=
  (Server.worksheet_pass toLowerCase toUpperCase num_to_string toFixed
      WEIGHT_TOL_PCT a2vUrl results).
Local Abbreviation folded := (Spec.folded toLowerCase num_to_string).
Local Abbreviation is_product_row := (Spec.is_product_row num_to_string).
Local Abbreviation web_row :=
  (Spec.web_row toLowerCase toUpperCase num_to_string a2vUrl results).
Local Abbreviation cmp_row :=
  (Spec.cmp_row toLowerCase toUpperCase num_to_string toFixed WEIGHT_TOL_PCT
      a2vUrl results).
Local Abbreviation block :=
  (Spec.block toLowerCase toUpperCase num_to_string toFixed WEIGHT_TOL_PCT
      a2vUrl results).
Local Abbreviation augmented :=
  (Spec.augmented toLowerCase toUpperCase num_to_string toFixed WEIGHT_TOL_PCT
      a2vUrl results).
Local Abbreviation product_rows := (Spec.product_rows num_to_string).
Local Abbreviation before := (Spec.before num_to_string).

Lemma fold_text_folded v : fold_text v = folded v.
Proof. apply replace_all_runs. Qed.

(** C5, as amended. Both sides absent give ORANGE "Beide fehlen"; one
    side absent gives ORANGE naming that side; two present values give
    GREEN when they are equal after trimming, lower-casing and collapsing
    whitespace, and otherwise RED with the fixed comment "abweichend",
    which does not show the values. *)
Theorem compareText_verdict (excel web : value) :
  compareText excel web =
  match truthy excel, truthy web with
  | false, false => {| v_status := ORANGE; v_comment := js "Beide fehlen" |}
  | false, true => {| v_status := ORANGE; v_comment := js "Excel fehlt" |}
  | true, false => {| v_status := ORANGE; v_comment := js "Web fehlt" |}
  | true, true =>
      if decide (folded excel = folded web)
      then {| v_status := GREEN; v_comment := js "identisch" |}
      else {| v_status := RED; v_comment := js "abweichend" |}
  end.
Proof.
  unfold compareText. rewrite !fold_text_folded.
  destruct (truthy excel), (truthy web); try reflexivity.
  simpl. unfold bool_decide.
  destruct (decide_rel eq (folded excel) (folded web));
    destruct (decide (folded excel = folded web)); try reflexivity; contradiction.
Qed.



(** C7. The key is the article number of the request, trimmed and
    upper-cased.  The handler answers 400 without calling the scraper
    exactly when the key does not start with A2V; otherwise it calls the
    scraper once, with the key, and answers with the record the call
    returned (or, when the call throws, with status 500 and the message). *)
Theorem scrape_handler_calls (scrapeOne : jsstring -> product + jsstring)
    (articleNumber : value) :
  let key :=
    toUpperCase (trim (to_string (or_else articleNumber (VStr [])))) in
  let out := run scrapeOne (scrape_handler articleNumber) in
  out = (if startsWith key (js "A2V")
         then (match scrapeOne key with
               | inl data => Success data
               | inr message => Status500 message
               end, [key])
         else (Status400 (js "Nur A2V-Nummern erlaubt"), []))
  /\ ((exists e, out.1 = Status400 e)
      <-> startsWith key (js "A2V") = false)
  /\ (startsWith key (js "A2V") = false -> out.2 = [])
  /\ (startsWith key (js "A2V") = true -> out.2 = [key]).
Proof.
  intros key out. subst out. unfold Server.scrape_handler. cbv zeta.
  change (request_key articleNumber) with key.
  destruct (startsWith key (js "A2V")) eqn:Hk; simpl.
  - destruct (scrapeOne key) as [data|message]; simpl;
      (split; [reflexivity|]); (split; [|split; [discriminate | reflexivity]]);
      (split; [intros [e He]; discriminate | discriminate]).
  - split; [reflexivity|]. split; [|split; [reflexivity | discriminate]].
    split; [reflexivity | eauto].
Qed.

Lemma missing_zero_or_absent x : zero_or_absent x -> missing x = true.
Proof. intros [->|[sg ->]]; reflexivity. Qed.

(** C9. When every component parsed from the web text is absent or zero,
    the web side counts as missing and the verdict is ORANGE: "Web
    fehlt/unklar" when a cell of the Excel side holds a number, "Beide
    fehlen" otherwise.  A zero in an Excel cell is such a number.  The
    example "0x0x0" is evaluated with the Latin-1 tables. *)
Theorem compareDimensions_zero_web (excelU excelV excelW webDimText : value) :
  zero_or_absent (L (parseDimensionsToLBH webDimText)) ->
  zero_or_absent (B (parseDimensionsToLBH webDimText)) ->
  zero_or_absent (H (parseDimensionsToLBH webDimText)) ->
  compareDimensions excelU excelV excelW webDimText
  = (if is_Some_b (toNumber excelU) || is_Some_b (toNumber excelV)
        || is_Some_b (toNumber excelW)
     then {| v_status := ORANGE; v_comment := js "Web fehlt/unklar" |}
     else {| v_status := ORANGE; v_comment := js "Beide fehlen" |})
  /\ toNumber (VStr (js "0")) = Some (of_Z 0)
  /\ Utils.parseDimensionsToLBH Text.toLowerCase num_to_string
       (VStr (js "0x0x0"))
     = {| L := Some (of_Z 0); B := Some (of_Z 0); H := Some (of_Z 0) |}.
Proof.
  intros HL HB HH. split; [|split; vm_compute; reflexivity].
  unfold Server.compareDimensions.
  rewrite (missing_zero_or_absent _ HL), (missing_zero_or_absent _ HB),
    (missing_zero_or_absent _ HH).
  destruct (_ || _ || _); reflexivity.
Qed.

Lemma get_cell_row (ws : list (gmap string cell)) c r rw :
  ws !! (r - 1) = Some rw -> get_cell ws c r = get_cell [rw] c 1.
Proof. intros H. unfold get_cell. rewrite H. reflexivity. Qed.

Lemma read_row_row (ws : list (gmap string cell)) r rw :
  ws !! (r - 1) = Some rw -> read_row ws r = read_row [rw] 1.
Proof.
  intros H. unfold read_row, cell_value.
  rewrite !(get_cell_row ws _ r rw H). reflexivity.
Qed.

Lemma anyValue_row (ws : list (gmap string cell)) r rw :
  ws !! (r - 1) = Some rw -> anyValue ws r = is_product_row rw.
Proof.
  intros H. unfold is_product_row, anyValue, cell_value. simpl.
  rewrite !(get_cell_row ws _ r rw H). reflexivity.
Qed.

Lemma ensure_rows_id (ws : list (gmap string cell)) r :
  r <= length ws -> ensure_rows ws r = ws.
Proof.
  intros H. unfold ensure_rows. replace (r - length ws) with 0 by lia.
  apply app_nil_r.
Qed.

Lemma update_cell_row f (ws : list (gmap string cell)) c r rw :
  ws !! (r - 1) = Some rw ->
  update_cell f ws c r
  = <[(r - 1) := <[c := f (default blank_cell (rw !! c))]> rw]> ws.
Proof.
  intros H. unfold update_cell.
  pose proof (lookup_lt_Some _ _ _ H) as Hl.
  rewrite ensure_rows_id by lia.
  apply list_eq. intros i.
  destruct (decide (i = r - 1)) as [->|Hne].
  - rewrite list_lookup_alter_eq, H, list_lookup_insert_eq by lia. reflexivity.
  - rewrite list_lookup_alter_ne, list_lookup_insert_ne by congruence.
    reflexivity.
Qed.

Lemma apply_write_row (ws : list (gmap string cell)) r rw w :
  ws !! (r - 1) = Some rw ->
  apply_write r ws w = <[(r - 1) := write_cell rw w]> ws.
Proof.
  intros H. destruct w as [c v|c f]; simpl; unfold set_value, set_fill;
    rewrite (update_cell_row _ ws c r rw H); reflexivity.
Qed.

Lemma apply_writes_row l (ws : list (gmap string cell)) r rw :
  ws !! (r - 1) = Some rw ->
  apply_writes ws r l = <[(r - 1) := fold_left write_cell l rw]> ws.
Proof.
  revert ws rw. induction l as [|w l IH]; intros ws rw H; simpl.
  - unfold apply_writes. simpl. symmetry. apply list_insert_id. exact H.
  - unfold apply_writes in *. simpl.
    rewrite (apply_write_row ws r rw w H).
    pose proof (lookup_lt_Some _ _ _ H) as Hl.
    rewrite (IH _ (write_cell rw w)) by (apply list_lookup_insert_eq; lia).
    apply list_insert_insert_eq.
Qed.

Lemma spliceRows_mid (ws : list (gmap string cell)) start :
  start - 1 <= length ws ->
  spliceRows ws start = take (start - 1) ws ++ ∅ :: drop (start - 1) ws.
Proof.
  intros H. unfold spliceRows. rewrite ensure_rows_id by lia. reflexivity.
Qed.

(** The two insertions of the loop body. *)
Lemma spliceRows_twice (ws : list (gmap string cell)) r :
  r <= length ws ->
  spliceRows (spliceRows ws (r + 1)) (r + 1 + 1)
  = take r ws ++ ∅ :: ∅ :: drop r ws.
Proof.
  intros H. rewrite (spliceRows_mid ws) by lia.
  replace (r + 1 - 1) with r by lia.
  rewrite spliceRows_mid; rewrite ?length_app, ?length_take; simpl; try lia.
  replace (r + 1 + 1 - 1) with (length (take r ws) + 1)
    by (rewrite length_take; lia).
  rewrite take_app_add, drop_app_add. simpl.
  rewrite drop_0, <- app_assoc. reflexivity.
Qed.

Lemma fold_left_step {A B} (f : A -> B -> A) (a : A) (x : B) (l : list B) :
  fold_left f (x :: l) a = fold_left f l (f a x).
Proof. reflexivity. Qed.

Lemma insert_middle {A} (l t : list A) (a x : A) n :
  n = length l -> <[n := x]> (l ++ a :: t) = l ++ x :: t.
Proof.
  intros ->. replace (length l) with (length l + 0) by lia.
  rewrite insert_app_r. reflexivity.
Qed.

Lemma insert_middle_next {A} (l t : list A) (a b x : A) n :
  n = S (length l) -> <[n := x]> (l ++ a :: b :: t) = l ++ a :: x :: t.
Proof.
  intros ->. replace (S (length l)) with (length l + 1) by lia.
  rewrite insert_app_r. reflexivity.
Qed.

(** The loop body, as an insertion of two finished rows. *)
Lemma process_row_insert (ws : list (gmap string cell)) r rw :
  ws !! (r - 1) = Some rw -> 1 <= r ->
  process_row ws r = take r ws ++ web_row rw :: cmp_row rw :: drop r ws.
Proof.
  intros H Hr. pose proof (lookup_lt_Some _ _ _ H) as Hl.
  unfold process_row. rewrite spliceRows_twice by lia.
  rewrite (read_row_row ws r rw H).
  assert (Ht : length (take r ws) = r) by (rewrite length_take; lia).
  rewrite (apply_writes_row _ _ (r + 1) ∅)
    by (apply list_lookup_middle; lia).
  rewrite insert_middle by lia.
  rewrite (apply_writes_row _ _ (r + 1 + 1) ∅).
  - rewrite insert_middle_next by lia. reflexivity.
  - replace (r + 1 + 1 - 1) with (length (take r ws) + 1) by lia.
    rewrite lookup_app_r by lia.
    replace (length (take r ws) + 1 - length (take r ws)) with 1 by lia.
    reflexivity.
Qed.

Lemma products_from (pre data : list (gmap string cell)) :
  filter (fun r => anyValue (pre ++ data) r = true)
         (seq (S (length pre)) (length data))
  = product_rows (S (length pre)) data.
Proof.
  revert pre. induction data as [|x data IH]; intros pre; [reflexivity|].
  simpl seq. simpl product_rows.
  assert (Hx : anyValue (pre ++ x :: data) (S (length pre)) = is_product_row x).
  { apply anyValue_row. simpl. rewrite Nat.sub_0_r.
    apply list_lookup_middle. reflexivity. }
  specialize (IH (pre ++ [x])).
  rewrite <- app_assoc, length_app in IH. simpl in IH.
  rewrite Nat.add_1_r in IH.
  destruct (is_product_row x) eqn:Hp.
  - rewrite filter_cons_True by (rewrite Hx; reflexivity).
    rewrite IH. reflexivity.
  - rewrite filter_cons_False by (rewrite Hx; discriminate).
    rewrite IH. reflexivity.
Qed.

Lemma products_rows (ws : list (gmap string cell)) :
  products ws = product_rows (S HEADER_ROW) (drop HEADER_ROW ws).
Proof.
  unfold products, lastRow, FIRST_DATA_ROW, HEADER_ROW.
  destruct (Nat.lt_ge_cases (length ws) 3) as [Hl|Hl].
  - rewrite drop_ge by lia. replace (S (length ws) - 4) with 0 by lia.
    reflexivity.
  - pose proof (products_from (take 3 ws) (drop 3 ws)) as H.
    rewrite take_drop, length_take, length_drop in H.
    replace (3 `min` length ws) with 3 in H by lia.
    replace (S (length ws) - 4) with (length ws - 3) by lia.
    exact H.
Qed.

Lemma product_rows_bounds k data :
  Forall (fun p => k <= p < k + length data) (product_rows k data).
Proof.
  revert k. induction data as [|x data IH]; intros k; [constructor|].
  simpl. apply Forall_app. split.
  - destruct (is_product_row x); repeat constructor; lia.
  - eapply Forall_impl; [apply IH|]. simpl. intros p Hp. lia.
Qed.

Lemma product_rows_sorted k data : StronglySorted lt (product_rows k data).
Proof.
  revert k. induction data as [|x data IH]; intros k; [constructor|].
  simpl. destruct (is_product_row x); simpl; [|apply IH].
  constructor; [apply IH|].
  eapply Forall_impl; [apply product_rows_bounds|]. simpl. intros p Hp. lia.
Qed.

(** Processing the product rows of [data] from the last to the first puts
    the two new rows after each of them. *)
Lemma fold_augment (data pre : list (gmap string cell)) :
  fold_left process_row (rev (product_rows (S (length pre)) data)) (pre ++ data)
  = pre ++ flat_map block data.
Proof.
  revert pre. induction data as [|x data IH]; intros pre; [reflexivity|].
  simpl product_rows. rewrite rev_app_distr, fold_left_app.
  specialize (IH (pre ++ [x])).
  rewrite <- !app_assoc, length_app in IH. simpl in IH.
  rewrite Nat.add_1_r in IH. rewrite IH.
  simpl flat_map. unfold block at 2.
  destruct (is_product_row x); [|reflexivity].
  change (rev [S (length pre)]) with [S (length pre)].
  rewrite fold_left_step.
  change (fold_left process_row [] ?w) with w.
  assert (Hx : (pre ++ x :: flat_map block data) !! (S (length pre) - 1)
               = Some x).
  { simpl. rewrite Nat.sub_0_r. apply list_lookup_middle. reflexivity. }
  rewrite (process_row_insert _ (S (length pre)) x Hx) by lia.
  replace (pre ++ x :: flat_map block data)
    with ((pre ++ [x]) ++ flat_map block data)
    by (rewrite <- app_assoc; reflexivity).
  rewrite take_app_length', drop_app_length'
    by (rewrite length_app; simpl; lia).
  rewrite <- app_assoc. reflexivity.
Qed.

Lemma insert_loop_S ps n (ws : list (gmap string cell)) :
  insert_loop ps (S n) ws
  = match ps !! n with
    | Some r => insert_loop ps n (process_row ws r)
    | None => ws
    end.
Proof. reflexivity. Qed.

Lemma insert_loop_fold ps n (ws : list (gmap string cell)) :
  n <= length ps ->
  insert_loop ps n ws = fold_left process_row (rev (take n ps)) ws.
Proof.
  revert ws. induction n as [|n IH]; intros ws Hn; [reflexivity|].
  rewrite insert_loop_S. destruct (ps !! n) as [r|] eqn:Hr.
  - rewrite (take_S_r _ _ _ Hr), rev_app_distr.
    change (rev [r] ++ rev (take n ps)) with (r :: rev (take n ps)).
    rewrite fold_left_step. apply IH. lia.
  - apply lookup_ge_None in Hr. lia.
Qed.

(** The pass visits the product rows of the sheet it was given, last
    first. *)
Lemma pass_fold (ws : list (gmap string cell)) :
  worksheet_pass ws = fold_left process_row (rev (products ws)) ws.
Proof.
  unfold worksheet_pass.
  destruct (Nat.ltb_spec (lastRow ws) HEADER_ROW) as [Hl|Hl].
  - rewrite products_rows. unfold lastRow in Hl.
    rewrite drop_ge by lia. reflexivity.
  - rewrite insert_loop_fold by lia. rewrite firstn_all. reflexivity.
Qed.

Lemma pass_augmented (ws : list (gmap string cell)) : worksheet_pass ws = augmented ws.
Proof.
  rewrite pass_fold, products_rows. unfold augmented.
  destruct (Nat.lt_ge_cases (length ws) HEADER_ROW) as [Hl|Hl].
  - rewrite drop_ge, take_ge by lia. simpl. symmetry. apply app_nil_r.
  - pose proof (fold_augment (drop HEADER_ROW ws) (take HEADER_ROW ws)) as H.
    rewrite take_drop, length_take in H.
    replace (HEADER_ROW `min` length ws) with HEADER_ROW in H by lia.
    exact H.
Qed.

Lemma products_bounds (ws : list (gmap string cell)) :
  Forall (fun p => FIRST_DATA_ROW <= p <= length ws) (products ws).
Proof.
  rewrite products_rows. eapply Forall_impl; [apply product_rows_bounds|].
  simpl. intros p Hp. rewrite length_drop in Hp.
  unfold FIRST_DATA_ROW, HEADER_ROW in *. lia.
Qed.

Lemma product_rows_count k data :
  length (product_rows k data)
  = length (filter (fun rw => is_product_row rw = true) data).
Proof.
  revert k. induction data as [|x data IH]; intros k; [reflexivity|].
  simpl. rewrite length_app, (IH (S k)).
  destruct (is_product_row x) eqn:Hp.
  - rewrite filter_cons_True by assumption. reflexivity.
  - rewrite filter_cons_False by congruence. reflexivity.
Qed.

Lemma blocks_length k data :
  length (flat_map block data) = length data + 2 * length (product_rows k data).
Proof.
  revert k. induction data as [|x data IH]; intros k; [reflexivity|].
  simpl. rewrite !length_app, (IH (S k)). unfold block.
  destruct (is_product_row x); simpl; lia.
Qed.

Lemma product_blocks_length data :
  length (flat_map block (filter (fun rw => is_product_row rw = true) data))
  = 3 * length (filter (fun rw => is_product_row rw = true) data).
Proof.
  induction data as [|x data IH]; [reflexivity|].
  destruct (is_product_row x) eqn:Hp.
  - rewrite filter_cons_True by assumption. simpl.
    rewrite length_app, IH. unfold block. rewrite Hp. simpl. lia.
  - rewrite filter_cons_False by congruence. exact IH.
Qed.

Lemma filter_lt_none k n data :
  n <= k -> filter (fun p => p < n) (product_rows k data) = [].
Proof.
  intros Hn. pose proof (product_rows_bounds k data) as Hb.
  induction Hb as [|p l Hp _ IH]; [reflexivity|].
  rewrite filter_cons_False by lia. exact IH.
Qed.

(** Where the rows of [data] are found among the blocks. *)
Lemma blocks_lookup data k j rw :
  data !! j = Some rw ->
  let n := length (filter (fun p => p < k + j) (product_rows k data)) in
  flat_map block data !! (j + 2 * n) = Some rw
  /\ (is_product_row rw = true ->
      flat_map block data !! (j + 2 * n + 1) = Some (web_row rw)
      /\ flat_map block data !! (j + 2 * n + 2) = Some (cmp_row rw)).
Proof.
  revert k j. induction data as [|x data IH]; intros k j Hj; [discriminate|].
  destruct j as [|j].
  - injection Hj as ->. cbv zeta.
    rewrite Nat.add_0_r, filter_lt_none by lia. simpl.
    unfold block. split; [destruct (is_product_row rw); reflexivity|].
    intros ->. split; reflexivity.
  - simpl in Hj. specialize (IH (S k) j Hj). cbv zeta in IH |- *.
    simpl product_rows. rewrite filter_app, length_app.
    replace (k + S j) with (S k + j) by lia.
    set (n := length (filter (fun p => p < S k + j) (product_rows (S k) data)))
      in *.
    simpl flat_map. unfold block at 1 3 5.
    destruct (is_product_row x).
    + rewrite filter_cons_True by lia. simpl length.
      replace (S j + 2 * (1 + n)) with (3 + (j + 2 * n)) by lia.
      replace (3 + (j + 2 * n) + 1) with (3 + (j + 2 * n + 1)) by lia.
      replace (3 + (j + 2 * n) + 2) with (3 + (j + 2 * n + 2)) by lia.
      exact IH.
    + simpl length.
      replace (S j + 2 * (0 + n)) with (1 + (j + 2 * n)) by lia.
      replace (1 + (j + 2 * n) + 1) with (1 + (j + 2 * n + 1)) by lia.
      replace (1 + (j + 2 * n) + 2) with (1 + (j + 2 * n + 2)) by lia.
      exact IH.
Qed.

Lemma augmented_lookup (ws : list (gmap string cell)) r rw :
  1 <= r -> ws !! (r - 1) = Some rw ->
  augmented ws !! (r - 1 + 2 * before ws r) = Some rw
  /\ (In r (products ws) ->
      augmented ws !! (r + 2 * before ws r) = Some (web_row rw)
      /\ augmented ws !! (r + 1 + 2 * before ws r) = Some (cmp_row rw)).
Proof.
  intros Hr H. unfold augmented, before. rewrite products_rows.
  pose proof (lookup_lt_Some _ _ _ H) as Hl.
  destruct (Nat.le_gt_cases r HEADER_ROW) as [Hh|Hh].
  - rewrite filter_lt_none by lia. simpl. rewrite Nat.add_0_r. split.
    + rewrite lookup_app_l by (rewrite length_take; lia).
      rewrite lookup_take_lt by lia. exact H.
    + intros Hin. pose proof (product_rows_bounds (S HEADER_ROW) (drop HEADER_ROW ws)) as Hb.
      rewrite Forall_forall in Hb. apply list_elem_of_In, Hb in Hin. lia.
  - assert (Hd : drop HEADER_ROW ws !! (r - S HEADER_ROW) = Some rw).
    { rewrite lookup_drop. rewrite <- H. f_equal. unfold HEADER_ROW in *. lia. }
    pose proof (blocks_lookup _ (S HEADER_ROW) _ _ Hd) as Hb. cbv zeta in Hb.
    replace (S HEADER_ROW + (r - S HEADER_ROW)) with r in Hb by lia.
    set (n := length (filter (fun p => p < r)
                        (product_rows (S HEADER_ROW) (drop HEADER_ROW ws)))) in *.
    assert (Ht : length (take HEADER_ROW ws) = HEADER_ROW)
      by (rewrite length_take; unfold HEADER_ROW in *; lia).
    destruct Hb as [Hb1 Hb2]. split.
    + rewrite lookup_app_r by lia. rewrite <- Hb1. f_equal.
      unfold HEADER_ROW in *. lia.
    + intros Hin.
      assert (Hp : is_product_row rw = true).
      { apply list_elem_of_In in Hin.
        rewrite <- products_rows in Hin. unfold products in Hin.
        apply list_elem_of_filter in Hin as [Hin _].
        rewrite <- (anyValue_row ws r rw H). exact Hin. }
      destruct (Hb2 Hp) as [Hw Hc]. split.
      * rewrite lookup_app_r by lia. rewrite <- Hw. f_equal.
        unfold HEADER_ROW in *. lia.
      * rewrite lookup_app_r by lia. rewrite <- Hc. f_equal.
        unfold HEADER_ROW in *. lia.
Qed.

(** C3. The pass over a worksheet with [M] product rows puts two rows,
    blank when they are inserted, directly after each product row: the
    web-data row and the comparison row.  The result is the sheet built row
    by row; it has [2 * M] rows more, the product rows with their new rows
    are [3 * M] rows, and every row of the sheet is found unchanged, moved
    down by two for each product row above it. *)
Theorem pass_inserts_two_rows (ws : list (gmap string cell)) :
  let M := length (products ws) in
  worksheet_pass ws = augmented ws
  /\ length (worksheet_pass ws) = length ws + 2 * M
  /\ length (flat_map block
               (filter (fun rw => is_product_row rw = true)
                       (drop HEADER_ROW ws))) = 3 * M
  /\ (forall r rw, 1 <= r -> ws !! (r - 1) = Some rw ->
      worksheet_pass ws !! (r - 1 + 2 * before ws r) = Some rw
      /\ (In r (products ws) ->
          worksheet_pass ws !! (r + 2 * before ws r) = Some (web_row rw)
          /\ worksheet_pass ws !! (r + 1 + 2 * before ws r) = Some (cmp_row rw)))
  /\ (forall (w : list (gmap string cell)) r, r <= length w ->
      spliceRows (spliceRows w (r + 1)) (r + 1 + 1)
      = take r w ++ ∅ :: ∅ :: drop r w)
  /\ (forall (w : list (gmap string cell)) r rw,
      1 <= r -> w !! (r - 1) = Some rw ->
      process_row w r = take r w ++ web_row rw :: cmp_row rw :: drop r w).
Proof.
  cbv zeta. rewrite pass_augmented. split; [reflexivity|].
  split; [|split; [|split; [|split]]].
  - unfold augmented.
    rewrite length_app, (blocks_length (S HEADER_ROW)), <- products_rows.
    rewrite length_take, length_drop. lia.
  - rewrite product_blocks_length, products_rows.
    rewrite (product_rows_count (S HEADER_ROW)). reflexivity.
  - intros r rw Hr H. apply augmented_lookup; assumption.
  - intros w r Hr. apply spliceRows_twice. exact Hr.
  - intros w r rw Hr H. apply process_row_insert; assumption.
Qed.

Lemma sorted_snoc {A} (R : A -> A -> Prop) l a :
  StronglySorted R l -> Forall (fun x => R x a) l ->
  StronglySorted R (l ++ [a]).
Proof.
  induction 1 as [|x l Hs IH Hx]; intros Ha; simpl.
  - repeat constructor.
  - apply Forall_cons in Ha as [Hxa Ha]. constructor; [auto|].
    apply Forall_app. split; [exact Hx | repeat constructor; exact Hxa].
Qed.

Lemma sorted_rev l : StronglySorted lt l -> StronglySorted gt (rev l).
Proof.
  induction 1 as [|x l Hs IH Hx]; simpl; [constructor|].
  apply sorted_snoc; [exact IH|].
  apply Forall_forall. intros y Hy. apply list_elem_of_In, in_rev in Hy.
  rewrite Forall_forall in Hx. apply list_elem_of_In in Hy.
  unfold gt. apply Hx. exact Hy.
Qed.

Lemma sorted_before {A} (R : A -> A -> Prop) l1 x l2 :
  StronglySorted R (l1 ++ x :: l2) -> Forall (fun d => R d x) l1.
Proof.
  induction l1 as [|a l1 IH]; simpl; intros Hs; [constructor|].
  apply StronglySorted_inv in Hs as [Hs Ha]. constructor; [|auto].
  rewrite Forall_forall in Ha. apply Ha.
  apply elem_of_app. right. left.
Qed.

(** Rows below every row still to come are not touched. *)
Lemma fold_prefix done (w : list (gmap string cell)) b :
  1 <= b -> Forall (fun d => b <= d <= length w) done ->
  (forall i, i < b -> fold_left process_row done w !! i = w !! i)
  /\ length (fold_left process_row done w) = length w + 2 * length done.
Proof.
  intros Hb. revert w. induction done as [|d done IH]; intros w Hd.
  - split; [reflexivity | simpl; lia].
  - rewrite fold_left_step. apply Forall_cons in Hd as [[Hd1 Hd2] Hd].
    destruct (lookup_lt_is_Some_2 w (d - 1) ltac:(lia)) as [rw Hrw].
    rewrite (process_row_insert w d rw Hrw) by lia.
    set (w' := take d w ++ web_row rw :: cmp_row rw :: drop d w).
    assert (Hl : length w' = length w + 2).
    { unfold w'. rewrite length_app, length_take. simpl.
      rewrite length_drop. lia. }
    destruct (IH w') as [IH1 IH2].
    { eapply Forall_impl; [exact Hd|]. simpl. intros x Hx. lia. }
    split; [|simpl length; lia].
    intros i Hi. rewrite IH1 by exact Hi. unfold w'.
    rewrite lookup_app_l by (rewrite length_take; lia).
    apply lookup_take_lt. lia.
Qed.

(** C4. The product rows are those of the sheet as it was given; the pass
    visits them in strictly descending order; and when the turn of a row
    [r] comes, every row visited before had a higher number, the rows 1 to
    [r] are still those of the sheet as it was given, and two rows were
    added for each row visited. *)
Theorem pass_descending_frozen (ws : list (gmap string cell)) :
  worksheet_pass ws = fold_left process_row (rev (products ws)) ws
  /\ StronglySorted gt (rev (products ws))
  /\ (forall done r todo, rev (products ws) = done ++ r :: todo ->
      let cur := fold_left process_row done ws in
      Forall (fun d => r < d) done
      /\ (forall i, i < r -> cur !! i = ws !! i)
      /\ cur !! (r - 1) = ws !! (r - 1)
      /\ take r cur = take r ws
      /\ length cur = length ws + 2 * length done).
Proof.
  assert (Hs : StronglySorted gt (rev (products ws))).
  { apply sorted_rev. rewrite products_rows. apply product_rows_sorted. }
  split; [apply pass_fold|]. split; [exact Hs|].
  intros done r todo E cur. rewrite E in Hs.
  pose proof (sorted_before _ _ _ _ Hs) as Hgt.
  assert (Hb : Forall (fun p => FIRST_DATA_ROW <= p <= length ws)
                 (done ++ r :: todo)).
  { rewrite <- E. apply Forall_forall. intros p Hp.
    apply list_elem_of_In, in_rev in Hp.
    pose proof (products_bounds ws) as Hpb. rewrite Forall_forall in Hpb.
    apply Hpb. apply list_elem_of_In. rewrite ?rev_involutive in Hp.
    exact Hp. }
  apply Forall_app in Hb as [Hdone Hr]. apply Forall_cons in Hr as [Hr _].
  unfold FIRST_DATA_ROW in *.
  destruct (fold_prefix done ws (S r) ltac:(lia)) as [H1 H2].
  { rewrite Forall_forall in Hgt, Hdone |- *. intros d Hd.
    specialize (Hgt d Hd). specialize (Hdone d Hd). unfold gt in Hgt. lia. }
  fold cur in H1, H2.
  split; [exact Hgt|]. split; [intros i Hi; apply H1; lia|].
  split; [apply H1; lia|]. split; [|exact H2].
  apply list_eq. intros i. destruct (Nat.lt_ge_cases i r) as [Hi|Hi].
  - rewrite !lookup_take_lt by lia. apply H1. lia.
  - rewrite !lookup_take_ge by lia. reflexivity.
Qed.

End Handlers.

(** The texts "Pumpe" and "Motor" differ, and the comment of the verdict
    shows neither of them. *)
Lemma compareText_comment_fixed :
  let v := compareText toLowerCase (fun _ => [])
             (VStr (js "Pumpe")) (VStr (js "Motor")) in
  v_status v = RED
  /\ ~ contains (js "Pumpe") (v_comment v)
  /\ ~ contains (js "Motor") (v_comment v).
Proof.
  cbv zeta. split; [vm_compute; reflexivity|].
  split; intros H; apply test_lit in H; vm_compute in H; discriminate.
Qed.

Lemma compareDimensions_zero_web_witness :
  compareDimensions toLowerCase (fun _ => []) (VStr (js "0")) (VStr (js "0"))
    (VStr (js "0")) (VStr (js "0x0x0"))
  = {| v_status := ORANGE; v_comment := js "Web fehlt/unklar" |}.
Proof.
  refine (proj1 (compareDimensions_zero_web toLowerCase (fun _ => [])
                   (VStr (js "0"))
                   (VStr (js "0")) (VStr (js "0")) (VStr (js "0x0x0")) _ _ _));
    right; exists false; vm_compute; reflexivity.
Defined.

End ServerProofs.

(** ** Absent numbers, separators and normal forms *)

Module UtilsFacts.

Import Text Num Js Utils Server Spec TextFacts UtilsProofs ServerProofs.
Import TextSpec.


Lemma more_total {A} r (k : option N -> jsstring -> option A) fuel p t :
  (forall p' t', is_Some_b (k p' t') = true) ->
  is_Some_b (more r k fuel p t) = true.
Proof.
  intros Hk. destruct fuel as [|fuel]; simpl; [apply Hk|].
  destruct (mt r p t _); [reflexivity | apply Hk].
Qed.

(** Whether the digits of the number pattern match at the start of [s]. *)
Lemma digits_then_total {A} (k : option N -> jsstring -> option A) p s :
  (forall p' t', is_Some_b (k p' t') = true) ->
  is_Some_b (mt (Plus (Class is_digit)) p s k)
  = match s with c :: _ => is_digit c | [] => false end.
Proof.
  intros Hk. destruct s as [|c s]; [reflexivity|].
  rewrite mt_Plus_Class. destruct (is_digit c); [|reflexivity].
  apply more_total, Hk.
Qed.

Lemma here_is_Some r p s :
  here r p s = is_Some_b (mt r p s (fun p' s' => Some (p', s'))).
Proof.
  unfold here, match_here.
  destruct (mt r p s _) as [[p' s']|]; reflexivity.
Qed.

Lemma is_Some_b_or_else {A} (o1 o2 : option A) :
  is_Some_b (match o1 with Some a => Some a | None => o2 end)
  = is_Some_b o1 || is_Some_b o2.
Proof. destruct o1; reflexivity. Qed.

Lemma mt_Class_cons {A} cls p c t (k : option N -> jsstring -> option A) :
  mt (Class cls) p (c :: t) k = if cls c then k (Some c) t else None.
Proof. reflexivity. Qed.

Lemma here_number p s : here re_number p s = starts_number s.
Proof.
  rewrite here_is_Some. unfold re_number.
  set (K := fun (p' : option N) (s' : jsstring) => Some (p', s')).
  set (frac := Opt (Cat (Chr 46) (Plus (Class is_digit)))).
  assert (Hfrac : forall p' t', is_Some_b (mt frac p' t' K) = true).
  { intros p' t'. unfold frac. cbn [mt]. rewrite is_Some_b_or_else.
    apply orb_true_r. }
  assert (Hrest : forall p' t',
             is_Some_b (mt (Cat (Plus (Class is_digit)) frac) p' t' K)
             = match t' with c :: _ => is_digit c | [] => false end).
  { intros p' t'.
    change (mt (Cat (Plus (Class is_digit)) frac) p' t' K)
      with (mt (Plus (Class is_digit)) p' t' (fun q u => mt frac q u K)).
    apply digits_then_total. exact Hfrac. }
  change (mt (Cat (Opt (Chr 45)) (Cat (Plus (Class is_digit)) frac)) p s K)
    with (match mt (Chr 45) p s
                  (fun q u => mt (Cat (Plus (Class is_digit)) frac) q u K) with
          | Some a => Some a
          | None => mt (Cat (Plus (Class is_digit)) frac) p s K
          end).
  rewrite is_Some_b_or_else, Hrest.
  destruct s as [|c t]; [reflexivity|].
  unfold Chr. rewrite mt_Class_cons, (N.eqb_sym 45 c). unfold starts_number.
  destruct (N.eqb_spec c 45) as [->|Hne].
  - cbv beta. rewrite Hrest. destruct t as [|d t']; [reflexivity|].
    destruct (is_digit d); reflexivity.
  - destruct (is_digit c); reflexivity.
Qed.

Lemma somewhere_number p s : somewhere re_number p s = has_digit s.
Proof.
  revert p. induction s as [|c s IH]; intros p; cbn [somewhere];
    rewrite here_number.
  - reflexivity.
  - rewrite IH. unfold starts_number, has_digit. cbn [existsb].
    destruct (is_digit c); [reflexivity|]. simpl.
    destruct (c =? 45)%N; [|reflexivity]. simpl.
    destruct s as [|d s]; [reflexivity|]. simpl.
    destruct (is_digit d); reflexivity.
Qed.

(** The number pattern finds a match exactly in the texts with a digit. *)
Lemma match1_number s :
  is_Some_b (match1 re_number s) = has_digit s.
Proof.
  rewrite <- (somewhere_number None), <- exec_somewhere. unfold match1.
  destruct (exec re_number None s) as [[[[pre m] p'] rest]|]; reflexivity.
Qed.

Ltac by_ranges :=
  repeat match goal with
  | |- context [(?a <=? ?b)%N] => destruct (N.leb_spec a b); try lia
  | |- context [(?a =? ?b)%N] => destruct (N.eqb_spec a b); try lia
  end; try reflexivity; try discriminate.

Lemma is_digit_not_space c : is_digit c = true -> is_space c = false.
Proof. unfold is_digit, is_space, in_range. by_ranges. Qed.

Lemma lower_unit_cases c :
  lower_unit c = c
  \/ (lower_unit c = (c + 32)%N
      /\ ((65 <= c <= 90)%N \/ (192 <= c <= 222)%N)).
Proof. unfold lower_unit, in_range. by_ranges; simpl; auto; right; lia. Qed.

Lemma is_digit_lower c : is_digit (lower_unit c) = is_digit c.
Proof.
  destruct (lower_unit_cases c) as [->|[-> [Hc|Hc]]]; [reflexivity| |];
    unfold is_digit, in_range; by_ranges.
Qed.

Lemma has_digit_lower s : has_digit (toLowerCase s) = has_digit s.
Proof.
  unfold has_digit, toLowerCase. induction s as [|c s IH]; [reflexivity|].
  simpl. rewrite is_digit_lower, IH. reflexivity.
Qed.

Lemma has_digit_no_space s :
  has_digit (filter (fun c => is_space c = false) s) = has_digit s.
Proof.
  unfold has_digit. induction s as [|c s IH]; [reflexivity|].
  destruct (is_space c) eqn:Hc.
  - rewrite filter_cons_False by congruence. simpl.
    destruct (is_digit c) eqn:Hd; [|exact IH].
    apply is_digit_not_space in Hd. congruence.
  - rewrite filter_cons_True by exact Hc. simpl. rewrite IH. reflexivity.
Qed.

Lemma replace_first_comma_cons c t :
  replace_first (js ",") (js ".") (c :: t)
  = if (c =? 44)%N then 46%N :: t
    else c :: replace_first (js ",") (js ".") t.
Proof.
  change (js ",") with [44%N]. change (js ".") with [46%N].
  cbn [replace_first startsWith]. rewrite andb_true_r.
  destruct (c =? 44)%N; reflexivity.
Qed.

Lemma has_digit_comma s :
  has_digit (replace_first (js ",") (js ".") s) = has_digit s.
Proof.
  unfold has_digit. induction s as [|c s IH]; [reflexivity|].
  rewrite replace_first_comma_cons.
  destruct (N.eqb_spec c 44) as [->|Hne]; [reflexivity|].
  simpl. rewrite IH. reflexivity.
Qed.

(** *** Replacing the code units of a class *)

Lemma match_here_Class cls p s :
  match_here (Class cls) p s
  = match s with
    | c :: t => if cls c then Some ([c], Some c, t) else None
    | [] => None
    end.
Proof.
  destruct s as [|c t]; [reflexivity|].
  unfold match_here. rewrite mt_Class_cons. destruct (cls c); [|reflexivity].
  simpl length. replace (S (length t) - length t)%nat with 1%nat by lia.
  reflexivity.
Qed.

Lemma exec_Class cls p s :
  match split_at cls s with
  | Some (pre, rest) =>
      exists m p', exec (Class cls) p s = Some (pre, m, p', rest) /\ m <> []
  | None => exec (Class cls) p s = None
  end.
Proof.
  revert p. induction s as [|c s IH]; intros p; [reflexivity|].
  cbn [exec split_at]. rewrite match_here_Class. destruct (cls c).
  - exists [c], (Some c). split; [reflexivity | discriminate].
  - specialize (IH (Some c)). destruct (split_at cls s) as [[pre rest]|].
    + destruct IH as (m & p' & -> & Hm). eauto.
    + rewrite IH. reflexivity.
Qed.

Lemma split_at_spec cls rep s :
  match split_at cls s with
  | Some (pre, rest) =>
      flat_map (fun c => if cls c then rep else [c]) s
      = pre ++ rep ++ flat_map (fun c => if cls c then rep else [c]) rest
      /\ (length rest < length s)%nat
  | None => flat_map (fun c => if cls c then rep else [c]) s = s
  end.
Proof.
  induction s as [|c s IH]; [reflexivity|]. cbn [split_at flat_map].
  destruct (cls c) eqn:Hc.
  - split; [reflexivity | simpl; lia].
  - destruct (split_at cls s) as [[pre rest]|].
    + destruct IH as [-> Hl]. split; [reflexivity | simpl; lia].
    + rewrite IH. reflexivity.
Qed.

Lemma replace_all_from_Class cls rep fuel p s :
  (length s < fuel)%nat ->
  replace_all_from fuel (Class cls) rep p s
  = flat_map (fun c => if cls c then rep else [c]) s.
Proof.
  revert p s. induction fuel as [|fuel IH]; intros p s Hl; [lia|].
  cbn [replace_all_from]. pose proof (exec_Class cls p s) as He.
  pose proof (split_at_spec cls rep s) as Hs.
  destruct (split_at cls s) as [[pre rest]|].
  - destruct He as (m & p' & -> & Hm). destruct Hs as [-> Hr].
    destruct m as [|x m]; [congruence|].
    rewrite IH by lia. reflexivity.
  - rewrite He, Hs. reflexivity.
Qed.

(** Replacing every code unit of a class by one code unit is a [map]. *)
Lemma replace_all_Class_unit cls (x : N) s :
  replace_all (Class cls) [x] s = map (fun c => if cls c then x else c) s.
Proof.
  unfold replace_all. rewrite replace_all_from_Class by lia.
  induction s as [|c s IH]; [reflexivity|].
  simpl. rewrite IH. destruct (cls c); reflexivity.
Qed.

Lemma has_digit_map (f : N -> N) s :
  (forall c, is_digit (f c) = is_digit c) ->
  has_digit (map f s) = has_digit s.
Proof.
  intros Hf. unfold has_digit. induction s as [|c s IH]; [reflexivity|].
  simpl. rewrite Hf, IH. reflexivity.
Qed.

Lemma has_digit_drop_while s :
  has_digit (drop_while is_space s) = has_digit s.
Proof.
  unfold has_digit. induction s as [|c s IH]; [reflexivity|].
  simpl. destruct (is_space c) eqn:Hc; [|reflexivity].
  rewrite IH. destruct (is_digit c) eqn:Hd; [|reflexivity].
  apply is_digit_not_space in Hd. congruence.
Qed.

Lemma has_digit_rev s : has_digit (rev s) = has_digit s.
Proof.
  unfold has_digit. apply eq_true_iff_eq. rewrite !existsb_exists.
  split; intros (x & Hx & Hd); exists x; split; auto;
    [apply in_rev | apply in_rev in Hx]; assumption.
Qed.

Lemma has_digit_trim s : has_digit (trim s) = has_digit s.
Proof.
  unfold trim.
  rewrite has_digit_rev, has_digit_drop_while, has_digit_rev.
  apply has_digit_drop_while.
Qed.

(** *** Whitespace at the ends *)

Lemma drop_while_app p (a b : jsstring) :
  drop_while p (a ++ b)
  = match drop_while p a with
    | [] => drop_while p b
    | _ :: _ => drop_while p a ++ b
    end.
Proof.
  induction a as [|c a IH]; simpl.
  - destruct (drop_while p b); reflexivity.
  - destruct (p c); [exact IH | reflexivity].
Qed.

Lemma drop_while_all p (a : jsstring) :
  Forall (fun c => p c = true) a -> drop_while p a = [].
Proof. induction 1 as [|c a Hc _ IH]; simpl; [|rewrite Hc]; auto. Qed.

Lemma drop_while_spaces_app p (a b : jsstring) :
  Forall (fun c => p c = true) a -> drop_while p (a ++ b) = drop_while p b.
Proof.
  intros Ha. rewrite drop_while_app, (drop_while_all p a Ha). reflexivity.
Qed.

(** Whitespace around a text does not change what [trim] returns. *)
Lemma trim_around (l1 s l2 : jsstring) :
  Forall (fun c => is_space c = true) l1 ->
  Forall (fun c => is_space c = true) l2 ->
  trim (l1 ++ s ++ l2) = trim s.
Proof.
  intros H1 H2. unfold trim. f_equal.
  rewrite (drop_while_spaces_app _ l1) by exact H1.
  rewrite drop_while_app. destruct (drop_while is_space s) as [|c u] eqn:E.
  - rewrite (drop_while_all _ l2 H2). reflexivity.
  - rewrite rev_app_distr. apply drop_while_spaces_app.
    apply Forall_forall. intros x Hx.
    rewrite Forall_forall in H2. apply H2.
    apply list_elem_of_In. apply list_elem_of_In in Hx.
    apply in_rev. exact Hx.
Qed.

Lemma drop_while_map p (f : N -> N) (s : jsstring) :
  (forall c, p (f c) = p c) ->
  drop_while p (map f s) = map f (drop_while p s).
Proof.
  intros Hf. induction s as [|c s IH]; [reflexivity|].
  simpl. rewrite Hf. destruct (p c); [exact IH | reflexivity].
Qed.

(** [trim] commutes with a change of code units that keeps whitespace. *)
Lemma trim_map (f : N -> N) (s : jsstring) :
  (forall c, is_space (f c) = is_space c) ->
  trim (map f s) = map f (trim s).
Proof.
  intros Hf. unfold trim.
  rewrite (drop_while_map _ f s Hf), <- map_rev,
    (drop_while_map _ f _ Hf), map_rev.
  reflexivity.
Qed.

Lemma is_space_lower c : is_space (lower_unit c) = is_space c.
Proof.
  destruct (lower_unit_cases c) as [->|[-> [Hc|Hc]]]; [reflexivity| |];
    unfold is_space, in_range; by_ranges.
Qed.

Lemma lower_unit_idem c : lower_unit (lower_unit c) = lower_unit c.
Proof.
  destruct (lower_unit_cases c) as [E|[-> [Hc|Hc]]];
    [rewrite !E; reflexivity| |];
    unfold lower_unit, in_range; by_ranges.
Qed.

Lemma toLowerCase_idem s : toLowerCase (toLowerCase s) = toLowerCase s.
Proof.
  unfold toLowerCase. rewrite map_map. apply map_ext. apply lower_unit_idem.
Qed.

Lemma trim_lower s : trim (toLowerCase s) = toLowerCase (trim s).
Proof. apply trim_map, is_space_lower. Qed.

Lemma upper_lower_unit c :
  (c < 256)%N -> upper_unit (lower_unit c) = upper_unit c.
Proof.
  intros Hc.
  assert (Hall : forallb (fun u => bool_decide
                            (upper_unit (lower_unit u) = upper_unit u))
                   (units_below 256) = true)
    by (vm_compute; reflexivity).
  rewrite forallb_forall in Hall.
  pose proof (Hall c (units_below_In c Hc)) as H.
  apply bool_decide_eq_true in H. exact H.
Qed.

Lemma toUpperCase_lower s :
  latin1 s -> toUpperCase (toLowerCase s) = toUpperCase s.
Proof.
  intros Hs. unfold toUpperCase, toLowerCase.
  induction Hs as [|c s Hc _ IH]; [reflexivity|].
  cbn [map flat_map]. rewrite IH, upper_lower_unit by exact Hc. reflexivity.
Qed.

Lemma Forall_drop_while (P : N -> Prop) f s :
  Forall P s -> Forall P (drop_while f s).
Proof.
  intros Hs. induction Hs as [|c s Hc Hs IH]; [constructor|].
  simpl. destruct (f c); [exact IH | constructor; assumption].
Qed.

Lemma latin1_trim s : latin1 s -> latin1 (trim s).
Proof.
  unfold latin1, trim. intros Hs.
  apply Forall_rev, Forall_drop_while, Forall_rev, Forall_drop_while, Hs.
Qed.

(** With the Latin-1 tables. *)
Section WithBuiltins.

Variable num_to_string : num -> jsstring.

Local Abbreviation to_string := (Js.to_string num_to_string).
Local Abbreviation cleanNumberString := (Utils.cleanNumberString num_to_string).
Local Abbreviation toNumber := (Utils.toNumber num_to_string).
Local Abbreviation normalizeWeightToKg :=
  (Utils.normalizeWeightToKg toLowerCase num_to_string).

Lemma clean_filter v :
  cleanNumberString v
  = if nullish v then None
    else Some (replace_first (js ",") (js ".")
                 (filter (fun c => is_space c = false) (to_string v))).
Proof.
  unfold Utils.cleanNumberString. destruct (nullish v); [reflexivity|].
  unfold re_spaces. rewrite replace_all_runs, replace_runs_nil. reflexivity.
Qed.

Lemma clean_has_digit v s :
  cleanNumberString v = Some s -> has_digit s = has_digit (to_string v).
Proof.
  rewrite clean_filter. destruct (nullish v); [discriminate|].
  intros [= <-]. rewrite has_digit_comma. apply has_digit_no_space.
Qed.

Lemma toNumber_None (v : value) :
  toNumber v = None <-> nullish v = true \/ has_digit (to_string v) = false.
Proof.
  unfold Utils.toNumber. destruct (nullish v) eqn:Hn.
  - split; auto.
  - assert (Hc : exists s, cleanNumberString v = Some s).
    { rewrite clean_filter, Hn. eauto. }
    destruct Hc as [s Hs].
    pose proof (clean_has_digit v s Hs) as Hd.
    pose proof (match1_number s) as Hm. rewrite Hd in Hm.
    assert (Hmain : match match1 re_number s with
                    | Some m => Some (parseFloat m)
                    | None => None
                    end = None
                    <-> false = true \/ has_digit (to_string v) = false).
    { destruct (match1 re_number s); simpl in Hm; rewrite <- Hm.
      - split; [discriminate | intros [H|H]; discriminate].
      - split; auto. }
    destruct v as [| |b|n|[|c t]]; try discriminate Hn;
      rewrite ?Hs; try exact Hmain.
    split; auto.
Qed.

Lemma weight_None (v : value) :
  normalizeWeightToKg v = None
  <-> nullish v = true \/ has_digit (to_string v) = false.
Proof.
  unfold Utils.normalizeWeightToKg. destruct (nullish v) eqn:Hn.
  - split; auto.
  - assert (Hc : exists s, cleanNumberString v = Some s).
    { rewrite clean_filter, Hn. eauto. }
    destruct Hc as [s Hs].
    pose proof (clean_has_digit v s Hs) as Hd.
    pose proof (match1_number (toLowerCase s)) as Hm.
    rewrite has_digit_lower, Hd in Hm.
    assert (Hmain :
      match match1 re_number (toLowerCase s) with
      | Some m =>
          let n := parseFloat m in
          if test re_mg (toLowerCase s) then Some (div n c_1e6)
          else if test re_g (toLowerCase s)
                  && negb (test re_kg (toLowerCase s))
               then Some (div n (of_Z 1000))
          else if test re_kg (toLowerCase s) then Some n
          else if test re_t (toLowerCase s) then Some (mul n (of_Z 1000))
          else Some n
      | None => None
      end = None
      <-> false = true \/ has_digit (to_string v) = false).
    { destruct (match1 re_number (toLowerCase s)); simpl in Hm;
        rewrite <- Hm.
      - cbv zeta.
        repeat match goal with
        | |- context [if ?b then _ else _] => destruct b
        end; (split; [discriminate | intros [H|H]; discriminate]).
      - split; auto. }
    destruct v as [| |b|n|[|c t]]; try discriminate Hn;
      rewrite ?Hs; try exact Hmain.
    split; auto.
Qed.

(** X3.  [toNumber] is absent exactly for [null], [undefined] and the texts
    without a decimal digit. *)
Theorem toNumber_absent_iff (v : value) :
  toNumber v = None <-> nullish v = true \/ has_digit (to_string v) = false.
Proof. apply toNumber_None. Qed.

(** X4.  A weight is absent exactly for [null], [undefined] and the texts
    without a decimal digit, that is, exactly when [toNumber] is absent:
    the unit plays no part in it. *)
Theorem normalizeWeightToKg_absent_iff (v : value) :
  latin1 (to_string v) ->
  (normalizeWeightToKg v = None
   <-> nullish v = true \/ has_digit (to_string v) = false)
  /\ (normalizeWeightToKg v = None <-> toNumber v = None).
Proof.
  intros _. split; [apply weight_None|].
  rewrite toNumber_None, weight_None. reflexivity.
Qed.

Lemma comma_Forall (P : N -> Prop) t :
  Forall P t -> P 46%N -> Forall P (replace_first (js ",") (js ".") t).
Proof.
  intros Ht H46. induction Ht as [|c t Hc Ht IH]; [constructor|].
  rewrite replace_first_comma_cons. destruct (c =? 44)%N; constructor; auto.
Qed.

Lemma comma_length t : length (replace_first (js ",") (js ".") t) = length t.
Proof.
  induction t as [|c t IH]; [reflexivity|].
  rewrite replace_first_comma_cons. destruct (c =? 44)%N; simpl; auto.
Qed.

Lemma comma_count t :
  commas (replace_first (js ",") (js ".") t) = pred (commas t).
Proof.
  unfold commas. induction t as [|c t IH]; [reflexivity|].
  rewrite replace_first_comma_cons. destruct (N.eqb_spec c 44) as [->|Hne].
  - rewrite filter_cons_False by discriminate.
    rewrite (filter_cons_True _ 44%N) by reflexivity. reflexivity.
  - rewrite !(filter_cons_False _ c) by exact Hne. exact IH.
Qed.

Lemma commas_no_space t :
  commas (filter (fun c => is_space c = false) t) = commas t.
Proof.
  unfold commas. induction t as [|c t IH]; [reflexivity|].
  destruct (is_space c) eqn:Hc.
  - rewrite (filter_cons_False _ c) by congruence.
    rewrite (filter_cons_False _ c t); [exact IH|].
    intros ->. discriminate.
  - rewrite (filter_cons_True _ c) by exact Hc.
    destruct (N.eq_dec c 44%N) as [->|Hne].
    + rewrite !(filter_cons_True _ 44%N) by reflexivity. simpl. rewrite IH.
      reflexivity.
    + rewrite !(filter_cons_False _ c) by exact Hne. exact IH.
Qed.

(** X2.  [cleanNumberString] returns [null] for [null] and [undefined] only;
    its text has no whitespace, as many code units as the given text has
    outside whitespace, and one comma less: only the first comma becomes a
    point. *)
Theorem cleanNumberString_shape (v : value) :
  (cleanNumberString v = None <-> nullish v = true)
  /\ (forall s, cleanNumberString v = Some s ->
      Forall (fun c => is_space c = false) s
      /\ length s = length (filter (fun c => is_space c = false) (to_string v))
      /\ commas s = pred (commas (to_string v))).
Proof.
  rewrite clean_filter. destruct (nullish v).
  - split; [split; reflexivity | discriminate].
  - split; [split; discriminate|]. intros s [= <-]. split; [|split].
    + apply comma_Forall; [|reflexivity].
      apply Forall_forall. intros c Hc.
      apply list_elem_of_filter in Hc. tauto.
    + apply comma_length.
    + rewrite comma_count, commas_no_space. reflexivity.
Qed.

Local Abbreviation a2vUrl := (Utils.a2vUrl num_to_string).

Lemma startsWith_self_app (w t : jsstring) : startsWith (w ++ t) w = true.
Proof. apply startsWith_app. exists t. reflexivity. Qed.

(** X1.  [a2vUrl] puts the trimmed number behind the address of the product
    pages: an absent number gives the bare address, and whitespace around
    the number changes nothing. *)
Theorem a2vUrl_trimmed (v : value) :
  startsWith (a2vUrl v) (js "https://www.mymobase.com/de/p/") = true
  /\ (truthy v = false -> a2vUrl v = js "https://www.mymobase.com/de/p/")
  /\ (forall s l1 l2,
      Forall (fun c => is_space c = true) l1 ->
      Forall (fun c => is_space c = true) l2 ->
      a2vUrl (VStr (l1 ++ s ++ l2)) = a2vUrl (VStr s)).
Proof.
  unfold Utils.a2vUrl. cbv zeta. split; [apply startsWith_self_app|].
  split.
  - intros Hv. unfold or_else. rewrite Hv. reflexivity.
  - intros s l1 l2 H1 H2.
    assert (Hor : forall x, or_else (VStr x) (VStr []) = VStr x)
      by (intros [|c x]; reflexivity).
    rewrite !Hor. cbn [Js.to_string]. rewrite trim_around by assumption.
    reflexivity.
Qed.

Local Abbreviation normPartNo := (Utils.normPartNo toUpperCase num_to_string).

Lemma plain_unit_latin1 c : (c < 256)%N -> plain_unit_ok c = true.
Proof.
  intros Hc.
  assert (Hall : forallb plain_unit_ok (units_below 256) = true)
    by (vm_compute; reflexivity).
  rewrite forallb_forall in Hall. apply Hall, units_below_In, Hc.
Qed.

Lemma plain_cons c s : plain (c :: s) = plain [c] ++ plain s.
Proof.
  unfold plain, toLowerCase. cbn [map].
  destruct (is_separator (lower_unit c)) eqn:Hc.
  - rewrite !(filter_cons_False _ (lower_unit c)) by congruence. reflexivity.
  - rewrite !(filter_cons_True _ (lower_unit c)) by exact Hc. reflexivity.
Qed.

Lemma toUpperCase_app s t :
  toUpperCase (s ++ t) = toUpperCase s ++ toUpperCase t.
Proof. unfold toUpperCase. apply flat_map_app. Qed.

(** On Latin-1 texts [normPartNo] is the upper case of the plain form. *)
Lemma normPartNo_plain s :
  latin1 s -> normPartNo (VStr s) = toUpperCase (plain s).
Proof.
  intros Hs. rewrite normPartNo_str. unfold toUpperCase at 1.
  induction Hs as [|c s Hc _ IH]; [reflexivity|].
  cbn [flat_map]. rewrite filter_app, IH, plain_cons, toUpperCase_app.
  f_equal. pose proof (plain_unit_latin1 c Hc) as H.
  apply bool_decide_eq_true in H. exact H.
Qed.

(** X7.  Latin-1 texts that agree up to letter case and separators have the
    same normal form. *)
Theorem normPartNo_same (s t : jsstring) :
  latin1 s -> latin1 t -> plain s = plain t ->
  normPartNo (VStr s) = normPartNo (VStr t).
Proof.
  intros Hs Ht E. rewrite !normPartNo_plain by assumption. rewrite E.
  reflexivity.
Qed.

Local Abbreviation parseDimensionsToLBH :=
  (Utils.parseDimensionsToLBH toLowerCase num_to_string).

Lemma times_as_map t :
  replace_all re_times (js "x") t
  = map (fun c => if (c =? 215)%N || (c =? 120)%N then 120%N else c) t.
Proof. apply replace_all_Class_unit. Qed.

Lemma has_digit_dimension_text raw :
  has_digit (dimension_text raw) = has_digit raw.
Proof.
  unfold dimension_text, re_spaces.
  rewrite replace_all_runs, replace_runs_nil, has_digit_no_space,
    has_digit_comma, times_as_map, has_digit_map, has_digit_lower,
    has_digit_trim; [reflexivity|].
  intros c. destruct (N.eqb_spec c 215) as [->|H1]; [reflexivity|].
  destruct (N.eqb_spec c 120) as [->|H2]; reflexivity.
Qed.

Lemma match_all_number_nil s :
  match match_all re_number s with [] => true | _ :: _ => false end
  = negb (has_digit s).
Proof.
  rewrite <- (somewhere_number None), <- exec_somewhere.
  unfold match_all. cbn [match_all_from].
  destruct (exec re_number None s) as [[[[pre m] p'] rest]|]; [|reflexivity].
  destruct m, rest; reflexivity.
Qed.

Lemma component_Some (nums : list num) i scale :
  is_Some_b (component nums i scale) = is_Some_b (nums !! i).
Proof. unfold component. destruct (nums !! i); reflexivity. Qed.

Lemma is_Some_b_lookup_le {A} (l : list A) i j :
  (i <= j)%nat -> is_Some_b (l !! j) = true -> is_Some_b (l !! i) = true.
Proof.
  intros Hij Hj. destruct (l !! j) as [x|] eqn:E; [|discriminate].
  apply lookup_lt_Some in E.
  destruct (lookup_lt_is_Some_2 l i ltac:(lia)) as [y ->]. reflexivity.
Qed.

(** X5.  The components of a parsed dimension text are filled from the left:
    the first is present exactly when the text is given and holds a digit,
    and a later one is present only when the ones before it are. *)
Theorem parseDimensions_components (text : value) :
  latin1 (to_string text) ->
  let p := parseDimensionsToLBH text in
  is_Some_b (L p) = truthy text && has_digit (to_string text)
  /\ (is_Some_b (H p) = true -> is_Some_b (B p) = true)
  /\ (is_Some_b (B p) = true -> is_Some_b (L p) = true).
Proof.
  intros _. cbv zeta. unfold Utils.parseDimensionsToLBH.
  destruct (truthy text); cbn [negb]; cbv iota; [|repeat split; discriminate].
  fold (dimension_text (to_string text)). cbv zeta. cbn [L B H].
  rewrite !component_Some. split; [|split].
  - pose proof (match_all_number_nil (dimension_text (to_string text))) as Hm.
    rewrite has_digit_dimension_text in Hm.
    destruct (match_all re_number (dimension_text (to_string text)));
      destruct (has_digit (to_string text)); simpl in *; congruence.
  - apply is_Some_b_lookup_le. lia.
  - apply is_Some_b_lookup_le. lia.
Qed.

Lemma one_separator_space c : is_space (one_separator c) = is_space c.
Proof.
  unfold one_separator.
  destruct (N.eqb_spec c 215) as [->|H1]; [reflexivity|].
  destruct (N.eqb_spec c 88) as [->|H2]; [reflexivity|].
  destruct (N.eqb_spec c 120) as [->|H3]; reflexivity.
Qed.

Lemma one_separator_times c :
  (fun x => if (x =? 215)%N || (x =? 120)%N then 120%N else x)
    (lower_unit (one_separator c))
  = (fun x => if (x =? 215)%N || (x =? 120)%N then 120%N else x)
      (lower_unit c).
Proof.
  cbv beta. unfold one_separator.
  destruct (N.eqb_spec c 215) as [->|H1]; [reflexivity|].
  destruct (N.eqb_spec c 88) as [->|H2]; [reflexivity|].
  destruct (N.eqb_spec c 120) as [->|H3]; reflexivity.
Qed.

Lemma dimension_text_separator s :
  dimension_text (map one_separator s) = dimension_text s.
Proof.
  unfold dimension_text. do 2 f_equal.
  rewrite !times_as_map, (trim_map one_separator s one_separator_space).
  unfold toLowerCase. rewrite !map_map. apply map_ext.
  intros c. apply one_separator_times.
Qed.

(** X6.  The signs [x], [X] and the multiplication sign are interchangeable:
    texts that differ only in which of them they use parse alike. *)
Theorem parseDimensions_separators (s t : jsstring) :
  latin1 s -> latin1 t ->
  map one_separator s = map one_separator t ->
  parseDimensionsToLBH (VStr s) = parseDimensionsToLBH (VStr t).
Proof.
  intros _ _.
  assert (H1 : forall u, parseDimensionsToLBH (VStr (map one_separator u))
                         = parseDimensionsToLBH (VStr u)).
  { intros u. unfold Utils.parseDimensionsToLBH.
    destruct u as [|c u]; [reflexivity|].
    cbn [truthy map negb]. cbv iota. rewrite <- (map_cons one_separator).
    cbn [Js.to_string].
    fold (dimension_text (map one_separator (c :: u))).
    fold (dimension_text (c :: u)).
    rewrite dimension_text_separator. reflexivity. }
  intros E. rewrite <- (H1 s), <- (H1 t), E. reflexivity.
Qed.

End WithBuiltins.

Lemma normPartNo_same_witness :
  normPartNo toUpperCase (fun _ => []) (VStr (js "a2v-1234 56/7"))
  = normPartNo toUpperCase (fun _ => []) (VStr (js "A2V123456 7")).
Proof.
  apply (normPartNo_same (fun _ => []));
    [unfold latin1; repeat constructor ..| reflexivity].
Defined.

Lemma parseDimensions_separators_witness :
  parseDimensionsToLBH toLowerCase (fun _ => []) (VStr (js "30X20x10"))
  = parseDimensionsToLBH toLowerCase (fun _ => [])
      (VStr (js "30x20" ++ [215%N] ++ js "10")).
Proof.
  apply (parseDimensions_separators (fun _ => []));
    [unfold latin1; repeat constructor ..| reflexivity].
Defined.

Lemma normalizeWeightToKg_absent_iff_witness :
  (normalizeWeightToKg toLowerCase (fun _ => []) (VStr (js "ca. kg")) = None
   <-> nullish (VStr (js "ca. kg")) = true
       \/ has_digit (js "ca. kg") = false)
  /\ (normalizeWeightToKg toLowerCase (fun _ => []) (VStr (js "ca. kg")) = None
      <-> toNumber (fun _ => []) (VStr (js "ca. kg")) = None).
Proof.
  apply (normalizeWeightToKg_absent_iff (fun _ => []) (VStr (js "ca. kg"))).
  unfold latin1. repeat constructor.
Defined.

Lemma parseDimensions_components_witness :
  let p :=
    parseDimensionsToLBH toLowerCase (fun _ => []) (VStr (js "30 x 20")) in
  is_Some_b (L p) = true
  /\ (is_Some_b (H p) = true -> is_Some_b (B p) = true)
  /\ (is_Some_b (B p) = true -> is_Some_b (L p) = true).
Proof.
  apply (parseDimensions_components (fun _ => []) (VStr (js "30 x 20"))).
  unfold latin1. repeat constructor.
Defined.

End UtilsFacts.

(** ** The comparators and the scrape endpoint *)

Module CompareFacts.

Import Text Num Js Utils Server Spec TextFacts UtilsProofs ServerProofs.
Import TextSpec UtilsFacts.

(** For every case conversion of the engine. *)
Section Comparators.

Variable toLowerCase toUpperCase : jsstring -> jsstring.
Variable num_to_string : num -> jsstring.

Local Abbreviation to_string := (Js.to_string num_to_string).
Local Abbreviation toNumber := (Utils.toNumber num_to_string).
Local Abbreviation normPartNo := (Utils.normPartNo toUpperCase num_to_string).
Local Abbreviation parseDimensionsToLBH :=
  (Utils.parseDimensionsToLBH toLowerCase num_to_string).
Local Abbreviation fold_text := (Server.fold_text toLowerCase num_to_string).
Local Abbreviation compareText :=
  (Server.compareText toLowerCase num_to_string).
Local Abbreviation comparePartNo :=
  (Server.comparePartNo toUpperCase num_to_string).
Local Abbreviation compareDimensions :=
  (Server.compareDimensions toLowerCase num_to_string).

(** X8.  The status of [compareText] does not depend on which side is which,
    and two identical values are never reported as different. *)
Theorem compareText_symmetric (a b : value) :
  v_status (compareText a b) = v_status (compareText b a)
  /\ v_status (compareText a a) <> RED.
Proof.
  unfold Server.compareText. split.
  - destruct (truthy a), (truthy b); try reflexivity. cbn [negb andb].
    cbv iota. destruct (decide (fold_text a = fold_text b)) as [E|E].
    + rewrite !bool_decide_eq_true_2 by congruence. reflexivity.
    + rewrite !bool_decide_eq_false_2 by congruence. reflexivity.
  - destruct (truthy a); [|discriminate]. cbn [negb andb]. cbv iota.
    rewrite bool_decide_eq_true_2 by reflexivity. discriminate.
Qed.

(** X10.  The status of [comparePartNo] does not depend on which side is which;
    it is GREEN exactly when both values are present and have the same
    normal form; and the comment of a RED verdict shows both values. *)
Theorem comparePartNo_facts (a b : value) :
  v_status (comparePartNo a b) = v_status (comparePartNo b a)
  /\ (v_status (comparePartNo a b) = GREEN
      <-> truthy a = true /\ truthy b = true /\ normPartNo a = normPartNo b)
  /\ (v_status (comparePartNo a b) = RED ->
      contains (to_string a) (v_comment (comparePartNo a b))
      /\ contains (to_string b) (v_comment (comparePartNo a b))).
Proof.
  unfold Server.comparePartNo.
  destruct (truthy a), (truthy b); cbn [negb andb]; cbv iota;
    try (split; [reflexivity|]; split;
         [split; [discriminate | intros (? & ? & ?); discriminate]
         | discriminate]).
  destruct (decide (normPartNo a = normPartNo b)) as [E|E].
  - rewrite !bool_decide_eq_true_2 by congruence.
    split; [reflexivity|]. split; [tauto | discriminate].
  - rewrite !bool_decide_eq_false_2 by congruence.
    split; [reflexivity|]. split.
    + split; [discriminate | tauto].
    + intros _. cbn [v_comment]. split.
      * exists (js "abweichend: Excel "), (js " vs. Web " ++ to_string b).
        reflexivity.
      * exists (js "abweichend: Excel " ++ to_string a ++ js " vs. Web "), [].
        rewrite app_nil_r, <- !app_assoc. reflexivity.
Qed.

Lemma eq_dim_Some (a b : option num) :
  eq_dim a b = true -> is_Some_b a = true /\ is_Some_b b = true.
Proof. destruct a, b; simpl; auto; discriminate. Qed.


End Comparators.

(** With the Latin-1 tables. *)
Section Handlers.

Variable num_to_string : num -> jsstring.
Variable toFixed : num -> nat -> jsstring.
Variable WEIGHT_TOL_PCT : num.
Variable product : Type.

Local Abbreviation to_string := (Js.to_string num_to_string).
Local Abbreviation toNumber := (Utils.toNumber num_to_string).
Local Abbreviation normalizeWeightToKg :=
  (Utils.normalizeWeightToKg toLowerCase num_to_string).
Local Abbreviation normPartNo := (Utils.normPartNo toUpperCase num_to_string).
Local Abbreviation parseDimensionsToLBH :=
  (Utils.parseDimensionsToLBH toLowerCase num_to_string).
Local Abbreviation fold_text := (Server.fold_text toLowerCase num_to_string).
Local Abbreviation compareText :=
  (Server.compareText toLowerCase num_to_string).
Local Abbreviation comparePartNo :=
  (Server.comparePartNo toUpperCase num_to_string).
Local Abbreviation compareWeight :=
  (Server.compareWeight toLowerCase num_to_string toFixed WEIGHT_TOL_PCT).
Local Abbreviation compareDimensions :=
  (Server.compareDimensions toLowerCase num_to_string).
Local Abbreviation request_key :=
  (Server.request_key toUpperCase num_to_string).
Local Abbreviation scrape_handler :=
  (Server.scrape_handler toUpperCase num_to_string product).

(** X9.  [compareText] does not see letter case or whitespace around the
    text. *)
Theorem compareText_insensitive (s l1 l2 : jsstring) :
  latin1 s -> s <> [] ->
  Forall (fun c => is_space c = true) l1 ->
  Forall (fun c => is_space c = true) l2 ->
  compareText (VStr s) (VStr (l1 ++ toLowerCase s ++ l2))
  = {| v_status := GREEN; v_comment := js "identisch" |}.
Proof.
  intros _ Hs H1 H2. unfold Server.compareText.
  assert (Ht : truthy (VStr s) = true) by (destruct s; [congruence | reflexivity]).
  assert (Ht' : truthy (VStr (l1 ++ toLowerCase s ++ l2)) = true).
  { destruct s; [congruence|]. destruct l1; reflexivity. }
  rewrite Ht, Ht'. cbn [negb andb]. cbv iota.
  rewrite bool_decide_eq_true_2; [reflexivity|].
  unfold Server.fold_text. cbn [Js.to_string].
  rewrite trim_around by assumption.
  rewrite trim_lower, toLowerCase_idem. reflexivity.
Qed.

(** X11.  A weight comparison is unresolved exactly when a side is [null],
    [undefined] or a text without a digit. *)
Theorem compareWeight_unresolved (a b : value) :
  latin1 (to_string a) -> latin1 (to_string b) ->
  v_status (compareWeight a b) = ORANGE
  <-> (nullish a = true \/ has_digit (to_string a) = false)
      \/ (nullish b = true \/ has_digit (to_string b) = false).
Proof.
  intros _ _.
  rewrite <- !(weight_None num_to_string). unfold Server.compareWeight.
  destruct (normalizeWeightToKg a), (normalizeWeightToKg b);
    cbv zeta; try destruct (withinToleranceKG _ _ _); cbn [v_status];
    split; auto; try discriminate; intros [H|H]; discriminate.
Qed.

(** X13.  The endpoint does not see letter case or whitespace around the
    number: such requests run the same program, so they are refused alike
    or reach the scraper with the same key. *)
Theorem scrape_handler_insensitive (s l1 l2 : jsstring) :
  latin1 s ->
  Forall (fun c => is_space c = true) l1 ->
  Forall (fun c => is_space c = true) l2 ->
  request_key (VStr (l1 ++ toLowerCase s ++ l2)) = request_key (VStr s)
  /\ scrape_handler (VStr (l1 ++ toLowerCase s ++ l2))
     = scrape_handler (VStr s).
Proof.
  intros Hs H1 H2.
  assert (Hk : request_key (VStr (l1 ++ toLowerCase s ++ l2))
               = request_key (VStr s)).
  { assert (Hor : forall x, or_else (VStr x) (VStr []) = VStr x)
      by (intros [|c x]; reflexivity).
    unfold Server.request_key. rewrite !Hor. cbn [Js.to_string].
    rewrite trim_around by assumption.
    rewrite trim_lower. apply toUpperCase_lower, latin1_trim, Hs. }
  split; [exact Hk|]. unfold Server.scrape_handler. cbv zeta.
  rewrite Hk. reflexivity.
Qed.

End Handlers.

Lemma compareText_insensitive_witness :
  compareText toLowerCase (fun _ => []) (VStr (js "Pumpe A"))
    (VStr (js " " ++ toLowerCase (js "Pumpe A") ++ js "  "))
  = {| v_status := GREEN; v_comment := js "identisch" |}.
Proof.
  apply (compareText_insensitive (fun _ => []) (js "Pumpe A") (js " ")
           (js "  ")).
  - unfold latin1. repeat constructor.
  - discriminate.
  - repeat constructor.
  - repeat constructor.
Defined.

Lemma compareWeight_unresolved_witness :
  v_status (compareWeight toLowerCase (fun _ => []) (fun _ _ => []) (of_Z 0)
              (VStr (js "1,5 kg")) (VStr (js "kg")))
  = ORANGE
  <-> (nullish (VStr (js "1,5 kg")) = true
       \/ has_digit (js "1,5 kg") = false)
      \/ (nullish (VStr (js "kg")) = true \/ has_digit (js "kg") = false).
Proof.
  apply (compareWeight_unresolved (fun _ => []) (fun _ _ => []) (of_Z 0)
           (VStr (js "1,5 kg")) (VStr (js "kg")));
    unfold latin1; repeat constructor.
Defined.

Lemma scrape_handler_insensitive_witness :
  request_key toUpperCase (fun _ => [])
    (VStr (js " " ++ toLowerCase (js "A2V00123") ++ js " "))
  = request_key toUpperCase (fun _ => []) (VStr (js "A2V00123"))
  /\ scrape_handler toUpperCase (fun _ => []) unit
       (VStr (js " " ++ toLowerCase (js "A2V00123") ++ js " "))
     = scrape_handler toUpperCase (fun _ => []) unit (VStr (js "A2V00123")).
Proof.
  apply (scrape_handler_insensitive (fun _ => []) unit (js "A2V00123")
           (js " ") (js " ")).
  - unfold latin1. repeat constructor.
  - repeat constructor.
  - repeat constructor.
Defined.

End CompareFacts.

(** ** The workbook: collected numbers and the finished sheet *)

Module SheetFacts.

Import Text Num Js Utils Server Spec TextFacts UtilsProofs ServerProofs.
Import CellSpec.

(** For every case conversion of the engine. *)
Section Handlers.

Variable toLowerCase toUpperCase : jsstring -> jsstring.
Variable num_to_string : num -> jsstring.
Variable toFixed : num -> nat -> jsstring.
Variable WEIGHT_TOL_PCT : num.
Variable a2vUrl : jsstring -> value.
Variable results : gmap (list N) webData.

Local Abbreviation to_string := (Js.to_string num_to_string).
Local Abbreviation compareText :=
  (Server.compareText toLowerCase num_to_string).
Local Abbreviation comparePartNo :=
  (Server.comparePartNo toUpperCase num_to_string).
Local Abbreviation compareWeight :=
  (Server.compareWeight toLowerCase num_to_string toFixed WEIGHT_TOL_PCT).
Local Abbreviation compareDimensions :=
  (Server.compareDimensions toLowerCase num_to_string).
Local Abbreviation non_blank := (Server.non_blank num_to_string).
Local Abbreviation anyValue := (Server.anyValue num_to_string).
Local Abbreviation products := (Server.products num_to_string).
Local Abbreviation read_row := (Server.read_row toUpperCase num_to_string).
Local Abbreviation lookup_webData := (Server.lookup_webData a2vUrl results).
Local Abbreviation web_writes :=
  (Server.web_writes toLowerCase num_to_string a2vUrl results).
Local Abbreviation cmp_writes :=
  (Server.cmp_writes toLowerCase toUpperCase num_to_string toFixed
      WEIGHT_TOL_PCT a2vUrl results).
Local Abbreviation worksheet_pass :=
  (Server.worksheet_pass toLowerCase toUpperCase num_to_string toFixed
      WEIGHT_TOL_PCT a2vUrl results).
Local Abbreviation a2v_of_cell :=
  (Server.a2v_of_cell toUpperCase num_to_string).
Local Abbreviation sheet_a2vs := (Server.sheet_a2vs toUpperCase num_to_string).
Local Abbreviation collect_a2vs :=
  (Server.collect_a2vs toUpperCase num_to_string).
Local Abbreviation is_product_row := (Spec.is_product_row num_to_string).
Local Abbreviation web_row :=
  (Spec.web_row toLowerCase toUpperCase num_to_string a2vUrl results).
Local Abbreviation cmp_row :=
  (Spec.cmp_row toLowerCase toUpperCase num_to_string toFixed WEIGHT_TOL_PCT
      a2vUrl results).
Local Abbreviation block :=
  (Spec.block toLowerCase toUpperCase num_to_string toFixed WEIGHT_TOL_PCT
      a2vUrl results).
Local Abbreviation augmented :=
  (Spec.augmented toLowerCase toUpperCase num_to_string toFixed WEIGHT_TOL_PCT
      a2vUrl results).
Local Abbreviation product_rows := (Spec.product_rows num_to_string).
Local Abbreviation before := (Spec.before num_to_string).

Local Abbreviation pass_augmented :=
  (ServerProofs.pass_augmented toLowerCase toUpperCase num_to_string toFixed
      WEIGHT_TOL_PCT a2vUrl
     results).

Lemma blocks_sublist (data : list (gmap string cell)) :
  sublist data (flat_map block data).
Proof.
  induction data as [|x data IH]; [constructor|].
  simpl. unfold block at 1. destruct (is_product_row x); simpl.
  - apply sublist_skip. do 2 apply sublist_cons. exact IH.
  - apply sublist_skip. exact IH.
Qed.

Lemma products_short (ws : list (gmap string cell)) :
  length ws < FIRST_DATA_ROW -> products ws = [].
Proof.
  intros H. unfold Server.products, lastRow, FIRST_DATA_ROW in *.
  replace (S (length ws) - 4) with 0 by lia. reflexivity.
Qed.

(** X15.  The rows of the sheet stay, in their order. *)
Theorem pass_keeps_rows (ws : list (gmap string cell)) :
  sublist ws (worksheet_pass ws)
  /\ take HEADER_ROW (worksheet_pass ws) = take HEADER_ROW ws
  /\ (products ws = [] -> worksheet_pass ws = ws)
  /\ (length ws < FIRST_DATA_ROW -> worksheet_pass ws = ws).
Proof.
  assert (Hnone : products ws = [] -> worksheet_pass ws = ws).
  { intros H. rewrite ServerProofs.pass_fold, H. reflexivity. }
  split; [|split; [|split; [exact Hnone|]]].
  - rewrite pass_augmented. unfold Spec.augmented.
    rewrite <- (take_drop HEADER_ROW ws) at 1.
    apply sublist_app; [reflexivity | apply blocks_sublist].
  - rewrite pass_augmented. unfold Spec.augmented.
    destruct (Nat.lt_ge_cases (length ws) HEADER_ROW) as [Hl|Hl].
    + rewrite drop_ge by lia. simpl. rewrite app_nil_r, take_take.
      f_equal.
    + rewrite take_app_le by (rewrite length_take; lia).
      rewrite take_take. f_equal.
  - intros H. apply Hnone, products_short, H.
Qed.


Local Abbreviation column_verdict :=
  (CellSpec.column_verdict toLowerCase toUpperCase num_to_string toFixed
      WEIGHT_TOL_PCT a2vUrl results).
Local Abbreviation column_web_value :=
  (CellSpec.column_web_value toLowerCase num_to_string a2vUrl results).

Lemma write_cell_lookup (rw : gmap string cell) w c :
  default blank_cell (write_cell rw w !! c)
  = cell_write c (default blank_cell (rw !! c)) w.
Proof.
  destruct w as [c' v|c' f]; simpl; case_decide as Hc.
  - subst c'. rewrite lookup_insert_eq. reflexivity.
  - rewrite lookup_insert_ne by exact Hc. reflexivity.
  - subst c'. rewrite lookup_insert_eq. reflexivity.
  - rewrite lookup_insert_ne by exact Hc. reflexivity.
Qed.

Lemma fold_write_cell_lookup l (rw : gmap string cell) c :
  default blank_cell (fold_left write_cell l rw !! c)
  = fold_left (cell_write c) l (default blank_cell (rw !! c)).
Proof.
  revert rw. induction l as [|w l IH]; intros rw; [reflexivity|].
  rewrite !fold_left_step, IH, write_cell_lookup. reflexivity.
Qed.

Lemma written_lookup l c :
  default blank_cell (written l !! c) = fold_left (cell_write c) l blank_cell.
Proof. unfold written. rewrite fold_write_cell_lookup. reflexivity. Qed.

Lemma verdict_writes_cell c c' v cl :
  fold_left (cell_write c) (verdict_writes c' v) cl
  = if decide (c' = c) then verdict_cell v else cl.
Proof. simpl. case_decide; reflexivity. Qed.

Lemma or_else_str_nil s : or_else (VStr s) (VStr []) = VStr s.
Proof. destruct s; reflexivity. Qed.

(** The cells of the comparison row. *)
Lemma cmp_row_cell d c :
  default blank_cell (written (cmp_writes d) !! c)
  = from_option verdict_cell blank_cell (column_verdict d c).
Proof.
  rewrite written_lookup. unfold Server.cmp_writes, CellSpec.column_verdict.
  rewrite !fold_left_app, !verdict_writes_cell, !or_else_str_nil.
  cbv zeta.
  repeat case_decide; subst; try congruence; reflexivity.
Qed.

Lemma web_cells_generic c (vZ vE vC vS vP vN : value) (l b h : option num) :
  fold_left (cell_write c)
    ([SetValue "Z" vZ; SetValue "E" vE; SetValue "C" vC; SetValue "S" vS]
     ++ when_present "U" l ++ when_present "V" b ++ when_present "W" h
     ++ [SetValue "P" vP; SetValue "N" vN]) blank_cell
  = from_option value_cell blank_cell
      (if decide (c = "Z") then Some vZ
       else if decide (c = "E") then Some vE
       else if decide (c = "C") then Some vC
       else if decide (c = "S") then Some vS
       else if decide (c = "U") then VNum <$> l
       else if decide (c = "V") then VNum <$> b
       else if decide (c = "W") then VNum <$> h
       else if decide (c = "P") then Some vP
       else if decide (c = "N") then Some vN
       else None).
Proof.
  repeat match goal with
  | |- context [decide (c = ?k)] =>
      destruct (decide (c = k)) as [->|];
      [destruct l, b, h; reflexivity|]
  end.
  destruct l, b, h; simpl;
    repeat (rewrite decide_False by congruence); reflexivity.
Qed.

(** The cells of the web-data row. *)
Lemma web_row_cell d c :
  default blank_cell (written (web_writes d) !! c)
  = from_option value_cell blank_cell (column_web_value d c).
Proof.
  rewrite written_lookup. unfold Server.web_writes, CellSpec.column_web_value.
  rewrite !or_else_str_nil. cbv zeta. apply web_cells_generic.
Qed.

Lemma get_cell_at (ws : list (gmap string cell)) c r rw :
  ws !! (r - 1) = Some rw -> get_cell ws c r = default blank_cell (rw !! c).
Proof. intros H. unfold get_cell. rewrite H. reflexivity. Qed.

(** X16.  What the finished sheet shows for a product row [r]: the row itself,
    then the web-data row with the values of the record and no fill, then
    the comparison row with, in each compared column, the comment and the
    colour of one verdict. *)
Theorem pass_cells (ws : list (gmap string cell)) (r : nat) (c : string) :
  In r (products ws) ->
  let d := read_row ws r in
  let b := before ws r in
  get_cell (worksheet_pass ws) c (r + 2 * b) = get_cell ws c r
  /\ get_cell (worksheet_pass ws) c (r + 1 + 2 * b)
     = from_option value_cell blank_cell (column_web_value d c)
  /\ get_cell (worksheet_pass ws) c (r + 2 + 2 * b)
     = from_option verdict_cell blank_cell (column_verdict d c).
Proof.
  intros Hr d b.
  pose proof (ServerProofs.products_bounds num_to_string ws) as Hb.
  rewrite Forall_forall in Hb.
  specialize (Hb r (proj2 (list_elem_of_In _ _) Hr)).
  unfold FIRST_DATA_ROW in Hb.
  destruct (lookup_lt_is_Some_2 ws (r - 1) ltac:(lia)) as [rw Hrw].
  destruct (ServerProofs.augmented_lookup toLowerCase toUpperCase num_to_string
      toFixed WEIGHT_TOL_PCT
              a2vUrl results ws r rw ltac:(lia) Hrw) as [H0 H12].
  destruct (H12 Hr) as [H1 H2]. fold b in H0, H1, H2.
  rewrite pass_augmented.
  assert (Hd : Server.read_row toUpperCase num_to_string [rw] 1 = d).
  { symmetry. apply ServerProofs.read_row_row. exact Hrw. }
  split; [|split].
  - rewrite (get_cell_at _ c _ rw), (get_cell_at ws c r rw Hrw);
      [reflexivity|].
    rewrite <- H0. f_equal. lia.
  - rewrite (get_cell_at _ c _ (web_row rw)).
    + unfold Spec.web_row. rewrite Hd. apply web_row_cell.
    + rewrite <- H1. f_equal. lia.
  - rewrite (get_cell_at _ c _ (cmp_row rw)).
    + unfold Spec.cmp_row. rewrite Hd. apply cmp_row_cell.
    + rewrite <- H2. f_equal. lia.
Qed.

Lemma compareText_comment a b :
  In (v_comment (compareText a b))
     [js "Beide fehlen"; js "Excel fehlt"; js "Web fehlt"; js "identisch";
      js "abweichend"].
Proof.
  unfold Server.compareText.
  destruct (truthy a), (truthy b); simpl negb; simpl andb; cbv iota;
    try destruct (bool_decide _); simpl v_comment; simpl In; auto 6.
Qed.

Lemma comment_non_blank m :
  In m [js "Beide fehlen"; js "Excel fehlt"; js "Web fehlt"; js "identisch";
        js "abweichend"] ->
  non_blank (VStr m) = true.
Proof.
  simpl In. intros [<-|[<-|[<-|[<-|[<-|[]]]]]]; vm_compute; reflexivity.
Qed.

(** A comparison row is a product row for the next pass: its cell in
    column Z holds a comment. *)
Lemma cmp_row_is_product (rw : gmap string cell) :
  is_product_row (cmp_row rw) = true.
Proof.
  unfold Spec.is_product_row, Server.anyValue. cbn [existsb].
  unfold cell_value.
  rewrite !(get_cell_at [cmp_row rw] _ 1 (cmp_row rw)) by reflexivity.
  unfold Spec.cmp_row at 4. rewrite cmp_row_cell.
  unfold CellSpec.column_verdict. rewrite decide_True by reflexivity.
  cbv zeta. cbn [from_option verdict_cell c_value].
  rewrite (comment_non_blank _ (compareText_comment _ _)).
  rewrite !orb_true_r. reflexivity.
Qed.

Lemma product_count_blocks (data : list (gmap string cell)) :
  2 * length (filter (fun rw => is_product_row rw = true) data)
  <= length (filter (fun rw => is_product_row rw = true)
               (flat_map block data)).
Proof.
  induction data as [|x data IH]; [reflexivity|].
  simpl flat_map. rewrite filter_app, length_app. unfold block at 1.
  destruct (is_product_row x) eqn:Hx.
  - rewrite (filter_cons_True _ x data) by exact Hx.
    rewrite (filter_cons_True _ x) by exact Hx.
    destruct (is_product_row (web_row x)) eqn:Hw.
    + rewrite (filter_cons_True _ (web_row x)) by exact Hw.
      rewrite (filter_cons_True _ (cmp_row x)) by apply cmp_row_is_product.
      simpl length in *. lia.
    + rewrite (filter_cons_False _ (web_row x)) by congruence.
      rewrite (filter_cons_True _ (cmp_row x)) by apply cmp_row_is_product.
      simpl length in *. lia.
  - rewrite (filter_cons_False _ x data) by congruence.
    rewrite (filter_cons_False _ x) by congruence.
    simpl length. lia.
Qed.

Lemma pass_length (ws : list (gmap string cell)) :
  length (worksheet_pass ws) = length ws + 2 * length (products ws).
Proof.
  rewrite pass_augmented. unfold Spec.augmented.
  rewrite length_app,
    (ServerProofs.blocks_length toLowerCase toUpperCase num_to_string toFixed
        WEIGHT_TOL_PCT a2vUrl
       results (S HEADER_ROW)),
    <- ServerProofs.products_rows, length_take, length_drop.
  lia.
Qed.

(** X17.  The pass is not idempotent: after it, the sheet has at least twice as
    many product rows, so a second pass adds rows again. *)
Theorem pass_twice (ws : list (gmap string cell)) :
  2 * length (products ws) <= length (products (worksheet_pass ws))
  /\ length ws + 6 * length (products ws)
     <= length (worksheet_pass (worksheet_pass ws)).
Proof.
  assert (H : 2 * length (products ws)
              <= length (products (worksheet_pass ws))).
  { destruct (Nat.lt_ge_cases (length ws) HEADER_ROW) as [Hl|Hl].
    - rewrite products_short by (unfold FIRST_DATA_ROW, HEADER_ROW in *; lia).
      simpl. lia.
    - rewrite pass_augmented, !ServerProofs.products_rows.
      rewrite !(ServerProofs.product_rows_count num_to_string).
      unfold Spec.augmented.
      rewrite drop_app_length' by (rewrite length_take; lia).
      apply product_count_blocks. }
  split; [exact H|]. rewrite !pass_length. lia.
Qed.

Lemma a2v_of_cell_Some val k :
  a2v_of_cell val = Some k <->
  non_blank val = true /\ k = toUpperCase (trim (to_string val))
  /\ startsWith k (js "A2V") = true.
Proof.
  unfold Server.a2v_of_cell, Server.non_blank.
  destruct (truthy val && negb (bool_decide (trim (to_string val) = [])));
    [|split; [discriminate | intros [H _]; discriminate]].
  cbv zeta.
  destruct (startsWith (toUpperCase (trim (to_string val))) (js "A2V")) eqn:Hs.
  - split.
    + intros [= <-]. auto.
    + intros (_ & -> & _). reflexivity.
  - split; [discriminate|]. intros (_ & -> & H). congruence.
Qed.

End Handlers.

(** The keys of the first loop, with the Latin-1 tables (what matters here
    is that upper-casing keeps the empty text empty). *)
Section Collected.

Variable num_to_string : num -> jsstring.

Local Abbreviation products := (Server.products num_to_string).
Local Abbreviation read_row := (Server.read_row toUpperCase num_to_string).
Local Abbreviation a2v_of_cell :=
  (Server.a2v_of_cell toUpperCase num_to_string).
Local Abbreviation collect_a2vs :=
  (Server.collect_a2vs toUpperCase num_to_string).

(** The key the second loop looks up for a row, when it starts with A2V,
    is what the first loop pushes for the cell of column Z. *)
Lemma key_is_collected (ws : list (gmap string cell)) r :
  startsWith (A2V (read_row ws r)) (js "A2V") = true ->
  a2v_of_cell (cell_value ws "Z" r) = Some (A2V (read_row ws r)).
Proof.
  intros Hs. apply a2v_of_cell_Some. revert Hs.
  unfold Server.read_row, Server.non_blank. cbn [A2V].
  unfold or_else. destruct (truthy (cell_value ws "Z" r)) eqn:Ht.
  - intros Hs. split; [|split; [reflexivity | exact Hs]].
    simpl. apply negb_true_iff, bool_decide_eq_false.
    intros He. rewrite He in Hs. discriminate.
  - intros Hs. discriminate.
Qed.


End Collected.

Lemma pass_cells_witness :
  let ws : list (gmap string cell) :=
    [∅; ∅; ∅; {["Z" := value_cell (VStr (js "a2v1"))]}] in
  let pass :=
    worksheet_pass toLowerCase toUpperCase (fun _ => []) (fun _ _ => [])
      (of_Z 0) VStr ∅ in
  In 4 (products (fun _ => []) ws)
  /\ get_cell (pass ws) "Z" 4 = value_cell (VStr (js "a2v1"))
  /\ get_cell (pass ws) "Z" 5 = value_cell (VStr (js "A2V1"))
  /\ get_cell (pass ws) "Z" 6
     = verdict_cell {| v_status := GREEN; v_comment := js "identisch" |}.
Proof.
  cbv zeta.
  assert (H : In 4 (products (fun _ => [])
                      [∅; ∅; ∅; {["Z" := value_cell (VStr (js "a2v1"))]}])).
  { vm_compute. auto. }
  split; [exact H|].
  exact (pass_cells toLowerCase toUpperCase (fun _ => []) (fun _ _ => [])
           (of_Z 0) VStr ∅ _ 4 "Z" H).
Defined.

End SheetFacts.
